(** * EduCopy: the invitation-key store and the homework fetch client

    A shallow embedding of [app/services/storage.py],
    [app/services/authedu_client.py] and of the key-input handler of
    [app/handlers/homework.py], with the properties of the specification
    stated over it.

    Conventions of the embedding.
    - Python [int] is [Z]; [Optional[T]] is [option T]; [str] is [string]
      (the UTF-8 bytes of the text, so that the byte-wise order is the
      code-point order Python compares strings with).
    - [Storage._data] is the pair of dictionaries [keys] and [users].  Every
      path of [Storage.__init__] and every write of the class keeps both
      entries present, so [self._data.get("users", {})] is the [users] map
      itself.  The dictionaries are finite maps; their entries are the records
      the dataclasses [AccessKey] and [User] describe.
    - [str(user_id)] is the decimal rendering [pretty] of stdpp.
    - [datetime.now().isoformat()] is an input [now] of the operation.
    - [_save] writes the file and swallows every I/O error; it never changes
      [_data].  [Store] gives what the operations do to [_data]; the data
      file and the write of [_save] are in [Saved], where the persistence of
      an activation is stated.
    - [date.fromisoformat] reads [YYYY-MM-DD] in every Python version and
      further spellings from 3.11 on.  [Client] has the reader of
      [YYYY-MM-DD]; [Reader] has the parser over any reader, for what holds
      in every version. *)

From Stdlib Require Import ZArith String Ascii List Bool Lia.
From Stdlib Require OrderedTypeEx.
From stdpp Require Import base option list gmap strings pretty fin_maps sorting.

Local Open Scope string_scope.

(* ===================================================================== *)
(** ** The store: [app/services/storage.py] *)
(* ===================================================================== *)

Module Store.

(** The value stored under a token in [_data["keys"]]. *)
Record KeyData := mkKeyData {
  created_at : string;
  activated_by : option Z;
  activated_by_username : option string;
  activated_at : option string;
}.

(** The value stored under [str(user_id)] in [_data["users"]]. *)
Record UserData := mkUserData {
  user_id : Z;
  username : option string;
  key_used : string;
  user_activated_at : string;
}.

Record Storage := mkStorage {
  admin_id : Z;
  keys : gmap string KeyData;
  users : gmap string UserData;
}.

#[global] Instance KeyData_eq_dec : EqDecision KeyData.
Proof. solve_decision. Defined.

#[global] Instance UserData_eq_dec : EqDecision UserData.
Proof. solve_decision. Defined.

(** [Storage(admin_id)] when no data file exists. *)
Definition empty_storage (admin : Z) : Storage :=
  {| admin_id := admin; keys := ∅; users := ∅ |}.

(** [str(n)] for an [int]. *)
Definition str (n : Z) : string := pretty n.

(** The dataclass [AccessKey]: a token together with its stored fields. *)
Record AccessKey := mkAccessKey {
  key : string;
  ak_created_at : string;
  ak_activated_by : option Z;
  ak_activated_by_username : option string;
  ak_activated_at : option string;
}.

(** [AccessKey.is_used]: [self.activated_by is not None]. *)
Definition is_used (k : AccessKey) : bool :=
  match ak_activated_by k with Some _ => true | None => false end.

(** *** [generate_key] *)

(** [string.ascii_uppercase + string.digits] *)
Definition chars : list ascii :=
  list_ascii_of_string "ABCDEFGHIJKLMNOPQRSTUVWXYZ0123456789".

(** [secrets.choice(chars)]: the element of [chars] at a random index below
    [len(chars)].  The entropy is an input: [r] is the raw draw. *)
Definition choice (r : nat) : ascii :=
  nth (r mod length chars) chars "A"%char.

(** [''.join(secrets.choice(chars) for _ in range(4))], reading the draws
    [pos], [pos+1], [pos+2], [pos+3] of the entropy source [rnd]. *)
Definition part (rnd : nat → nat) (pos : nat) : string :=
  string_of_list_ascii (map (λ i, choice (rnd (pos + i)%nat)) (seq 0 4)).

(** ['-'.join(parts)] for the three parts of one iteration of the loop. *)
Definition draw_key (rnd : nat → nat) (pos : nat) : string :=
  part rnd pos ++ "-" ++ part rnd (pos + 4) ++ "-" ++ part rnd (pos + 8).

(** The [while True] loop: the candidate of each iteration uses twelve draws;
    the loop leaves with the first candidate that is not a stored token.
    [fuel] bounds the number of iterations; [None] is a loop still running
    when the fuel is spent. *)
Fixpoint generate_loop (fuel : nat) (rnd : nat → nat) (pos : nat)
    (ks : gmap string KeyData) : option (string * nat) :=
  match fuel with
  | O => None
  | S fuel' =>
      let k := draw_key rnd pos in
      if decide (ks !! k = None) then Some (k, (pos + 12)%nat)
      else generate_loop fuel' rnd (pos + 12) ks
  end.

(** The entry [generate_key] stores for a new token. *)
Definition fresh_key_data (now : string) : KeyData :=
  {| created_at := now; activated_by := None;
     activated_by_username := None; activated_at := None |}.

(** [Storage.generate_key]: the token, the next position of the entropy
    source and the store after the call. *)
Definition generate_key (fuel : nat) (rnd : nat → nat) (pos : nat)
    (now : string) (s : Storage) : option (string * nat * Storage) :=
  match generate_loop fuel rnd pos (keys s) with
  | None => None
  | Some (k, pos') =>
      Some (k, pos',
            {| admin_id := admin_id s;
               keys := <[k := fresh_key_data now]> (keys s);
               users := users s |})
  end.

(** *** [delete_key] *)

(** Truth value of [key_data.get("activated_by")] in an [if]:
    [None] and [0] are false, every other [int] is true. *)
Definition activated_by_truthy (kd : KeyData) : bool :=
  match activated_by kd with
  | None => false
  | Some u => negb (u =? 0)%Z
  end.

(** [Storage.delete_key]: the returned flag and the store after the call. *)
Definition delete_key (k : string) (s : Storage) : bool * Storage :=
  match keys s !! k with
  | Some key_data =>
      let users' :=
        if activated_by_truthy key_data then
          match activated_by key_data with
          | Some u => delete (str u) (users s)
          | None => users s
          end
        else users s in
      (true, {| admin_id := admin_id s;
                keys := delete k (keys s);
                users := users' |})
  | None => (false, s)
  end.

(** *** [activate_key] *)

(** [Storage.activate_key]: the returned flag and the store after the call. *)
Definition activate_key (k : string) (uid : Z) (uname : option string)
    (now : string) (s : Storage) : bool * Storage :=
  match keys s !! k with
  | None => (false, s)
  | Some key_data =>
      match activated_by key_data with
      | Some _ => (false, s)
      | None =>
          match users s !! str uid with
          | Some _ => (false, s)
          | None =>
              (true,
               {| admin_id := admin_id s;
                  keys := <[k := {| created_at := created_at key_data;
                                    activated_by := Some uid;
                                    activated_by_username := uname;
                                    activated_at := Some now |}]> (keys s);
                  users := <[str uid := {| user_id := uid;
                                           username := uname;
                                           key_used := k;
                                           user_activated_at := now |}]>
                             (users s) |})
          end
      end
  end.

(** *** Queries *)

(** [Storage.is_authorized] *)
Definition is_authorized (uid : Z) (s : Storage) : bool :=
  if (uid =? admin_id s)%Z then true
  else bool_decide (is_Some (users s !! str uid)).

(** [Storage.is_admin] *)
Definition is_admin (uid : Z) (s : Storage) : bool := (uid =? admin_id s)%Z.

(** [Storage.get_user_count] *)
Definition get_user_count (s : Storage) : nat := size (users s).

(** The sort key [lambda x: (x.is_used, x.created_at)] and Python's order on
    such tuples: the first components decide unless they are equal
    ([False < True]); strings compare by code point. *)
Definition sort_key (k : AccessKey) : bool * string := (is_used k, ak_created_at k).

Definition str_lt (a b : string) : bool :=
  match String.compare a b with Lt => true | _ => false end.

Definition sort_key_lt (a b : bool * string) : bool :=
  if Bool.eqb (fst a) (fst b) then str_lt (snd a) (snd b)
  else negb (fst a) && fst b.

(** [list.sort(key=f, reverse=True)] is a stable sort in descending key
    order: elements with equal keys keep their relative order.  Its result is
    that of the insertion sort below, which places an element after the
    elements with a strictly greater key and before all others. *)
Section SortReverse.
Context {A B : Type} (f : A → B) (lt : B → B → bool).

Fixpoint insert_reverse (x : A) (l : list A) : list A :=
  match l with
  | [] => [x]
  | y :: l' =>
      if lt (f x) (f y) then y :: insert_reverse x l' else x :: y :: l'
  end.

Definition sort_reverse (l : list A) : list A :=
  foldr insert_reverse [] l.

End SortReverse.

Definition to_AccessKey (item : string * KeyData) : AccessKey :=
  {| key := item.1;
     ak_created_at := created_at item.2;
     ak_activated_by := activated_by item.2;
     ak_activated_by_username := activated_by_username item.2;
     ak_activated_at := activated_at item.2 |}.

(** [Storage.get_all_keys].  The dictionary is enumerated by [map_to_list];
    the order of enumeration only shows among keys with equal sort keys. *)
Definition get_all_keys (s : Storage) : list AccessKey :=
  sort_reverse sort_key sort_key_lt (to_AccessKey <$> map_to_list (keys s)).

(** [Storage.get_unused_keys] *)
Definition get_unused_keys (s : Storage) : list AccessKey :=
  List.filter (λ k, negb (is_used k)) (get_all_keys s).

(** [Storage.get_used_keys] *)
Definition get_used_keys (s : Storage) : list AccessKey :=
  List.filter is_used (get_all_keys s).

End Store.


(* ===================================================================== *)
(** ** Python values and text *)
(* ===================================================================== *)

Module Py.

#[local] Set Warnings "-register-all".

(** The values [json.load] builds: [None], [bool], [int], [str], [list] and
    [dict] (a dictionary keeps its entries in insertion order, one per key).
    JSON numbers are carried as integers. *)
Inductive pyval :=
  | PNone
  | PBool (b : bool)
  | PInt (n : Z)
  | PStr (s : string)
  | PList (l : list pyval)
  | PDict (d : list (string * pyval)).

(** The exceptions that occur in the embedded code. *)
Inductive net_error :=
  | TimeoutException
  | RequestError (detail : string).

Inductive api_message :=
  | MsgTokenExpired                    (* "Токен авторизации истёк или неверен (401)..." *)
  | MsgForbidden                       (* "Доступ запрещён (403)..." *)
  | MsgHTTP (status : Z)               (* f"Ошибка API: HTTP {status}" *)
  | MsgExhausted (max_retries : Z) (last_error : option net_error).
                                       (* f"Не удалось подключиться ... {last_error}" *)

Inductive exn :=
  | AutheduAPIError (message : api_message) (status_code : option Z)
  | TypeError
  | ValueError
  | JSONDecodeError.

(** A computation that returns a value or raises. *)
Inductive result (A : Type) :=
  | Ok (a : A)
  | Raise (e : exn).
Arguments Ok {A} a.
Arguments Raise {A} e.

#[global] Instance result_ret : MRet result := λ A a, Ok a.
#[global] Instance result_bind : MBind result := λ A B f r,
  match r with Ok a => f a | Raise e => Raise e end.

(** Truth value of a Python value. *)
Definition truthy (v : pyval) : bool :=
  match v with
  | PNone => false
  | PBool b => b
  | PInt n => negb (n =? 0)%Z
  | PStr s => negb (String.eqb s "")
  | PList l => match l with [] => false | _ => true end
  | PDict d => match d with [] => false | _ => true end
  end.

(** [a or b] *)
Definition py_or (a b : pyval) : pyval := if truthy a then a else b.

(** [d.get(k)] is [None] for a missing key, [d.get(k, default)] the default. *)
Fixpoint dict_lookup {V : Type} (d : list (string * V)) (k : string) : option V :=
  match d with
  | [] => None
  | (k', v) :: d' => if String.eqb k' k then Some v else dict_lookup d' k
  end.

Definition get_default (d : list (string * pyval)) (k : string) (default : pyval) : pyval :=
  match dict_lookup d k with Some v => v | None => default end.

Definition get (d : list (string * pyval)) (k : string) : pyval :=
  get_default d k PNone.

(** Iterating a value in a [for] loop: the elements of a list, the keys of a
    dictionary, the characters of a string (here one per byte; the loops of
    the parser skip them, as they skip everything that is not a dictionary);
    other values are not iterable. *)
Definition py_iter (v : pyval) : result (list pyval) :=
  match v with
  | PList l => Ok l
  | PDict d => Ok (map (λ kv, PStr kv.1) d)
  | PStr s => Ok (map (λ c, PStr (String c EmptyString)) (list_ascii_of_string s))
  | PNone | PBool _ | PInt _ => Raise TypeError
  end.

(** [a == b] *)
Fixpoint py_eq (a b : pyval) {struct a} : bool :=
  match a, b with
  | PNone, PNone => true
  | PBool x, PBool y => Bool.eqb x y
  | PBool x, PInt y => (Z.b2z x =? y)%Z
  | PInt x, PBool y => (x =? Z.b2z y)%Z
  | PInt x, PInt y => (x =? y)%Z
  | PStr x, PStr y => String.eqb x y
  | PList l, PList m =>
      (fix eq_list (l m : list pyval) {struct l} : bool :=
         match l, m with
         | [], [] => true
         | x :: l', y :: m' => py_eq x y && eq_list l' m'
         | _, _ => false
         end) l m
  | PDict d, PDict e =>
      (length d =? length e)%nat &&
      (fix all_in (d : list (string * pyval)) {struct d} : bool :=
         match d with
         | [] => true
         | kv :: d' =>
             match dict_lookup e kv.1 with
             | Some w => py_eq kv.2 w
             | None => false
             end && all_in d'
         end) d
  | _, _ => false
  end.

(** [a < b] for strings: by code point. *)
Definition str_lt (a b : string) : bool :=
  match String.compare a b with Lt => true | _ => false end.

(** [a < b]: numbers with numbers, strings with strings, lists with lists
    (decided at the first position where they differ); every other pairing
    raises [TypeError]. *)
Fixpoint py_lt (a b : pyval) {struct a} : result bool :=
  match a, b with
  | PBool x, PBool y => Ok (Z.b2z x <? Z.b2z y)%Z
  | PBool x, PInt y => Ok (Z.b2z x <? y)%Z
  | PInt x, PBool y => Ok (x <? Z.b2z y)%Z
  | PInt x, PInt y => Ok (x <? y)%Z
  | PStr x, PStr y => Ok (str_lt x y)
  | PList l, PList m =>
      (fix lt_list (l m : list pyval) {struct l} : result bool :=
         match l, m with
         | [], [] => Ok false
         | [], _ :: _ => Ok true
         | _ :: _, [] => Ok false
         | x :: l', y :: m' => if py_eq x y then lt_list l' m' else py_lt x y
         end) l m
  | _, _ => Raise TypeError
  end.

(** *** [str.strip()] and [str.upper()] *)

(** The UTF-8 encodings of the characters [str.isspace] accepts. *)
Definition whitespace : list (list nat) :=
  [ [9]; [10]; [11]; [12]; [13]; [28]; [29]; [30]; [31]; [32];
    [194; 133]; [194; 160]; [225; 154; 128];
    [226; 128; 128]; [226; 128; 129]; [226; 128; 130]; [226; 128; 131];
    [226; 128; 132]; [226; 128; 133]; [226; 128; 134]; [226; 128; 135];
    [226; 128; 136]; [226; 128; 137]; [226; 128; 138];
    [226; 128; 168]; [226; 128; 169]; [226; 128; 175];
    [226; 129; 159]; [227; 128; 128] ]%nat.

Fixpoint drop_prefix (p l : list nat) : option (list nat) :=
  match p, l with
  | [], _ => Some l
  | a :: p', b :: l' => if (a =? b)%nat then drop_prefix p' l' else None
  | _ :: _, [] => None
  end.

(** The text after one leading character of [ws], if it starts with one. *)
Fixpoint drop_one (ws : list (list nat)) (l : list nat) : option (list nat) :=
  match ws with
  | [] => None
  | w :: ws' =>
      match drop_prefix w l with
      | Some l' => Some l'
      | None => drop_one ws' l
      end
  end.

Fixpoint lstrip_bytes (fuel : nat) (ws : list (list nat)) (l : list nat) : list nat :=
  match fuel with
  | O => l
  | S fuel' =>
      match drop_one ws l with
      | Some l' => lstrip_bytes fuel' ws l'
      | None => l
      end
  end.

Definition bytes_of (s : string) : list nat := map nat_of_ascii (list_ascii_of_string s).
Definition of_bytes (l : list nat) : string := string_of_list_ascii (map ascii_of_nat l).

(** [s.strip()] *)
Definition strip (s : string) : string :=
  let l := lstrip_bytes (String.length s) whitespace (bytes_of s) in
  let r := lstrip_bytes (length l) (map (@rev nat) whitespace) (rev l) in
  of_bytes (rev r).

Definition is_ascii_text (s : string) : bool :=
  forallb (λ c, (nat_of_ascii c <? 128)%nat) (list_ascii_of_string s).

Definition upper_ascii (c : ascii) : ascii :=
  let n := nat_of_ascii c in
  if ((97 <=? n) && (n <=? 122))%nat then ascii_of_nat (n - 32) else c.

(** [s.upper()] for ASCII text; the case mapping of other characters is not
    part of the embedding ([None]). *)
Definition upper (s : string) : option string :=
  if is_ascii_text s
  then Some (string_of_list_ascii (map upper_ascii (list_ascii_of_string s)))
  else None.

End Py.

(* ===================================================================== *)
(** ** The fetch client: [app/services/authedu_client.py] *)
(* ===================================================================== *)

Module Client.
Import Py.

(** [datetime.date] *)
Record date := mkDate { year : nat; month : nat; day : nat }.

Definition date_eqb (a b : date) : bool :=
  (year a =? year b)%nat && (month a =? month b)%nat && (day a =? day b)%nat.

Definition date_ltb (a b : date) : bool :=
  if (year a =? year b)%nat then
    if (month a =? month b)%nat then (day a <? day b)%nat
    else (month a <? month b)%nat
  else (year a <? year b)%nat.

Definition is_leap (y : nat) : bool :=
  ((y mod 4 =? 0) && negb (y mod 100 =? 0) || (y mod 400 =? 0))%nat.

Definition days_in_month (y m : nat) : nat :=
  match m with
  | 2 => if is_leap y then 29 else 28
  | 4 | 6 | 9 | 11 => 30
  | _ => 31
  end%nat.

Definition digit (c : ascii) : option nat :=
  let n := nat_of_ascii c in
  if ((48 <=? n) && (n <=? 57))%nat then Some (n - 48)%nat else None.

Fixpoint digits (acc : nat) (l : list ascii) : option nat :=
  match l with
  | [] => Some acc
  | c :: l' =>
      match digit c with
      | Some d => digits (10 * acc + d) l'
      | None => None
      end
  end.

Definition dash : ascii := "-"%char.

(** The text form [date.fromisoformat] reads: [YYYY-MM-DD] naming a day of
    the calendar (years 1 to 9999).  This is the whole of the accepted input
    up to Python 3.10; later versions also read the other ISO 8601
    spellings of a date ([YYYYMMDD], week dates).  What is stated about the
    dates of parsed items is stated in [Reader], over the reader of any
    version. *)
Definition parse_iso_date (s : string) : option date :=
  match list_ascii_of_string s with
  | [y1; y2; y3; y4; s1; m1; m2; s2; d1; d2] =>
      if Ascii.eqb s1 dash && Ascii.eqb s2 dash then
        match digits 0 [y1; y2; y3; y4], digits 0 [m1; m2], digits 0 [d1; d2] with
        | Some y, Some m, Some d =>
            if ((1 <=? y) && (1 <=? m) && (m <=? 12) && (1 <=? d)
                && (d <=? days_in_month y m))%nat
            then Some {| year := y; month := m; day := d |}
            else None
        | _, _, _ => None
        end
      else None
  | _ => None
  end.

(** [date.fromisoformat(v)]: [TypeError] unless [v] is a string,
    [ValueError] for a string that is not a date. *)
Definition fromisoformat (v : pyval) : result date :=
  match v with
  | PStr s =>
      match parse_iso_date s with
      | Some d => Ok d
      | None => Raise ValueError
      end
  | _ => Raise TypeError
  end.

(** The text [str(v)] of a value.  For a list or a dictionary it is the
    [repr] of the value, which starts and ends with a bracket; it is kept
    as [Repr v]. *)
Inductive text :=
  | Text (s : string)
  | Repr (v : pyval).

Definition py_str (v : pyval) : text :=
  match v with
  | PNone => Text "None"
  | PBool true => Text "True"
  | PBool false => Text "False"
  | PInt n => Text (pretty n)
  | PStr s => Text s
  | PList _ | PDict _ => Repr v
  end.

Definition text_strip (t : text) : text :=
  match t with
  | Text s => Text (strip s)
  | Repr v => Repr v
  end.

(** [not t] for a text: it is the empty string. *)
Definition text_is_empty (t : text) : bool :=
  match t with
  | Text s => String.eqb s ""
  | Repr _ => false
  end.

Record MaterialItem := mkMaterialItem {
  title : pyval;
  url : pyval;
}.

Record HomeworkItem := mkHomeworkItem {
  subject : pyval;
  homework_date : date;
  homework_text : text;
  is_done : pyval;
  materials : list MaterialItem;
}.

(** The loop over [urls]: the first entry that is a dictionary with a true
    ["url"] gives the material's address. *)
Fixpoint first_url (urls : list pyval) : option pyval :=
  match urls with
  | [] => None
  | url_obj :: rest =>
      match url_obj with
      | PDict u => if truthy (get u "url") then Some (get u "url") else first_url rest
      | _ => first_url rest
      end
  end.

(** The loop over [materials_raw]. *)
Fixpoint parse_materials (mats : list pyval) : result (list MaterialItem) :=
  match mats with
  | [] => Ok []
  | mat :: rest =>
      match mat with
      | PDict m =>
          let title := get_default m "title" (PStr "Файл") in
          let urls := py_or (get m "urls") (PList []) in
          us ← py_iter urls;
          tail ← parse_materials rest;
          Ok (match first_url us with
              | Some u => {| title := title; url := u |} :: tail
              | None => tail
              end)
      | _ => parse_materials rest
      end
  end.

(** The body of the loop over [data]: the item an element contributes, if
    any. *)
Definition parse_element (hw : pyval) : result (option HomeworkItem) :=
  match hw with
  | PDict h =>
      let homework_text :=
        text_strip (py_str (py_or (py_or (get h "homework") (get h "description")) (PStr ""))) in
      if text_is_empty homework_text then Ok None
      else
        let date_str := get_default h "date" (PStr "") in
        match fromisoformat date_str with
        | Raise ValueError => Ok None
        | Raise e => Raise e
        | Ok homework_date =>
            let subject := get_default h "subject_name" (PStr "Без предмета") in
            let is_done := get_default h "is_done" (PBool false) in
            let materials_raw := py_or (get h "materials") (PList []) in
            mats ← py_iter materials_raw;
            materials ← parse_materials mats;
            Ok (Some {| subject := subject;
                        homework_date := homework_date;
                        homework_text := homework_text;
                        is_done := is_done;
                        materials := materials |})
        end
  | _ => Ok None
  end.

Fixpoint parse_elements (data : list pyval) : result (list HomeworkItem) :=
  match data with
  | [] => Ok []
  | hw :: rest =>
      item ← parse_element hw;
      items ← parse_elements rest;
      Ok (match item with Some i => i :: items | None => items end)
  end.

(** [(x.homework_date, x.subject) < (y.homework_date, y.subject)]: the first
    components that are not equal decide. *)
Definition item_lt (x y : HomeworkItem) : result bool :=
  if negb (date_eqb (homework_date x) (homework_date y))
  then Ok (date_ltb (homework_date x) (homework_date y))
  else if py_eq (subject x) (subject y) then Ok false
  else py_lt (subject x) (subject y).

(** [items.sort(key=...)]: a stable sort in ascending key order; a comparison
    that raises ends the sort with its exception. *)
Fixpoint insert_item (x : HomeworkItem) (l : list HomeworkItem) : result (list HomeworkItem) :=
  match l with
  | [] => Ok [x]
  | y :: l' =>
      b ← item_lt y x;
      if b : bool then r ← insert_item x l'; Ok (y :: r)
      else Ok (x :: y :: l')
  end.

Fixpoint sort_items (l : list HomeworkItem) : result (list HomeworkItem) :=
  match l with
  | [] => Ok []
  | x :: l' => r ← sort_items l'; insert_item x r
  end.

(** [AutheduClient._parse_homeworks] *)
Definition _parse_homeworks (data : pyval) : result (list HomeworkItem) :=
  let data :=
    match data with
    | PDict d =>
        py_or (py_or (py_or (get d "payload") (get d "response")) (get d "data")) (PList [])
    | _ => data
    end in
  match data with
  | PList l => items ← parse_elements l; sort_items items
  | _ => Ok []
  end.

(** *** [fetch_homeworks] *)

(** What [await client.get(...)] does on one attempt: it raises a network
    error or returns a response; [body] is the value of [response.json()],
    [None] when the body is not JSON. *)
Inductive get_outcome :=
  | GetRaises (e : net_error)
  | GetResponse (status_code : Z) (body : option pyval).

(** The observable steps of a call. *)
Inductive event :=
  | EvGet                 (* client.get(BASE_URL, params=params) *)
  | EvSleep (seconds : Z) (* asyncio.sleep(wait_time) *).

(** The rest of the [try] block once [client.get] has returned a response:
    the three status checks, then [response.json()] and the parser. *)
Definition handle_response (status : Z) (body : option pyval)
    : result (list HomeworkItem) :=
  if (status =? 401)%Z then
    Raise (AutheduAPIError MsgTokenExpired (Some 401%Z))
  else if (status =? 403)%Z then
    Raise (AutheduAPIError MsgForbidden (Some 403%Z))
  else if (status >=? 400)%Z then
    Raise (AutheduAPIError (MsgHTTP status) (Some status))
  else
    match body with
    | Some data => _parse_homeworks data
    | None => Raise JSONDecodeError
    end.

(** The [for attempt in range(max_retries)] loop over the attempts still to
    make, with the statement after the loop.  [env attempt] is the outcome of
    the request of that attempt.  A response ends the call, with a result or
    an exception that no [except] clause of the loop catches; a network error
    is kept in [last_error] and, unless the attempt is the last one, followed
    by a pause. *)
Fixpoint fetch_loop (attempts : list nat) (max_retries : Z)
    (env : nat → get_outcome) (last_error : option net_error)
    : result (list HomeworkItem) * list event :=
  match attempts with
  | [] => (Raise (AutheduAPIError (MsgExhausted max_retries last_error) None), [])
  | attempt :: rest =>
      match env attempt with
      | GetResponse status body => (handle_response status body, [EvGet])
      | GetRaises e =>
          let sleep :=
            if (Z.of_nat attempt <? max_retries - 1)%Z
            then [EvSleep (2 ^ Z.of_nat attempt)] else [] in
          let '(r, trace) := fetch_loop rest max_retries env (Some e) in
          (r, EvGet :: sleep ++ trace)
      end
  end.

(** [AutheduClient.fetch_homeworks]; [max_retries] defaults to 3. *)
Definition fetch_homeworks (max_retries : Z) (env : nat → get_outcome)
    : result (list HomeworkItem) * list event :=
  fetch_loop (seq 0 (Z.to_nat max_retries)) max_retries env None.

Definition default_max_retries : Z := 3.

(** The number of requests in a trace. *)
Definition requests (trace : list event) : nat :=
  length (List.filter (λ e, match e with EvGet => true | _ => false end) trace).

(** The pauses of a trace, in order. *)
Definition sleeps (trace : list event) : list Z :=
  omap (λ e, match e with EvSleep n => Some n | _ => None end) trace.

End Client.

(* ===================================================================== *)
(** ** The key-input handler: [app/handlers/homework.py] *)
(* ===================================================================== *)

Module Handler.
Import Store Py.

Inductive reply :=
  | ReplyActivated   (* "Ключ активирован!" ; the input state is cleared *)
  | ReplyRejected.   (* "Неверный или уже использованный ключ" *)

(** The name stored with the activation: ["@" + username] when the sender has
    a user name, the full name otherwise. *)
Definition display_name (tg_username : option string) (full_name : string) : string :=
  match tg_username with
  | Some u => if negb (String.eqb u "") then "@" ++ u else full_name
  | None => full_name
  end.

(** [process_key_input]: the reply and the store after the message [text] of
    the sender [uid].  [None] when [text] is outside the embedded part of
    [str.upper]. *)
Definition process_key_input (text : string) (uid : Z)
    (tg_username : option string) (full_name : string) (now : string)
    (s : Storage) : option (reply * Storage) :=
  match upper (strip text) with
  | None => None
  | Some key =>
      let username := display_name tg_username full_name in
      let '(ok, s') := activate_key key uid (Some username) now s in
      Some (if ok then ReplyActivated else ReplyRejected, s')
  end.

End Handler.

(* ===================================================================== *)
(** ** Vocabulary of the properties *)
(* ===================================================================== *)

Module Props.
Import Store Py.

(** A character of the generation alphabet. *)
Definition is_key_char (c : ascii) : bool := existsb (Ascii.eqb c) chars.

(** The format [XXXX-XXXX-XXXX] of a token: three groups of four characters
    of the alphabet, separated by ['-']. *)
Definition token_format (tok : string) : bool :=
  match list_ascii_of_string tok with
  | [a1; a2; a3; a4; s1; b1; b2; b3; b4; s2; c1; c2; c3; c4] =>
      forallb is_key_char [a1; a2; a3; a4; b1; b2; b3; b4; c1; c2; c3; c4]
      && Ascii.eqb s1 "-" && Ascii.eqb s2 "-"
  | _ => false
  end.

(** Two texts that differ at most in the case of their ASCII letters. *)
Fixpoint equal_ignoring_case (a b : string) : bool :=
  match a, b with
  | EmptyString, EmptyString => true
  | String x a', String y b' =>
      Ascii.eqb (upper_ascii x) (upper_ascii y) && equal_ignoring_case a' b'
  | _, _ => false
  end.

(** One call of the store's interface. *)
Inductive op :=
  | OpGenerate (fuel : nat) (rnd : nat → nat) (pos : nat) (now : string)
  | OpActivate (k : string) (uid : Z) (uname : option string) (now : string)
  | OpDelete (k : string).

(** The store after a call that returns. *)
Definition apply_op (o : op) (s : Storage) : option Storage :=
  match o with
  | OpGenerate fuel rnd pos now =>
      match generate_key fuel rnd pos now s with
      | Some (_, _, s') => Some s'
      | None => None
      end
  | OpActivate k uid uname now => Some (activate_key k uid uname now s).2
  | OpDelete k => Some (delete_key k s).2
  end.

(** The store after a sequence of calls. *)
Fixpoint run (ops : list op) (s : Storage) : option Storage :=
  match ops with
  | [] => Some s
  | o :: ops' =>
      match apply_op o s with
      | Some s' => run ops' s'
      | None => None
      end
  end.

(** Successive calls of [generate_key], one per element of [nows], reading
    the entropy source onwards from [pos]: the tokens returned, in order. *)
Fixpoint generate_key_times (fuel : nat) (rnd : nat → nat) (pos : nat)
    (nows : list string) (s : Storage) : option (list string * Storage) :=
  match nows with
  | [] => Some ([], s)
  | now :: nows' =>
      match generate_key fuel rnd pos now s with
      | Some (tok, pos', s') =>
          match generate_key_times fuel rnd pos' nows' s' with
          | Some (toks, s'') => Some (tok :: toks, s'')
          | None => None
          end
      | None => None
      end
  end.

(** No user id is activated with the value [0]. *)
Definition nonzero_op (o : op) : Prop :=
  match o with
  | OpActivate _ uid _ _ => uid ≠ 0%Z
  | _ => True
  end.

(** The three conditions of a successful activation, as one proposition. *)
Definition can_activate (s : Storage) (tok : string) (uid : Z) : Prop :=
  (∃ kd, keys s !! tok = Some kd ∧ activated_by kd = None)
  ∧ users s !! str uid = None.

(** A store with one unused key. *)
Definition one_key_store : Storage :=
  {| admin_id := 1;
     keys := {[ "ABCD-EFGH-IJKL" := fresh_key_data "2025-12-01T10:00:00" ]};
     users := ∅ |}.

(** The calls of a scenario: a key is generated, activated by the user id
    [0] and deleted. *)
Definition zero_user_ops : list op :=
  [ OpGenerate 1 (λ _, 0%nat) 0 "2025-12-01T10:00:00";
    OpActivate "AAAA-AAAA-AAAA" 0 (Some "@zero") "2025-12-02T10:00:00";
    OpDelete "AAAA-AAAA-AAAA" ].

(** The scenario continued: the entropy source yields the same token again,
    and another user activates it. *)
Definition shared_key_ops : list op :=
  zero_user_ops ++
  [ OpGenerate 1 (λ _, 0%nat) 12 "2025-12-03T10:00:00";
    OpActivate "AAAA-AAAA-AAAA" 7 (Some "@seven") "2025-12-04T10:00:00" ].

(** A store with a used key created first and an unused key created later. *)
Definition two_key_store : Storage :=
  {| admin_id := 1;
     keys := <[ "BBBB-BBBB-BBBB" :=
                  {| created_at := "2025-12-01T10:00:00";
                     activated_by := Some 7%Z;
                     activated_by_username := Some "@seven";
                     activated_at := Some "2025-12-03T10:00:00" |} ]>
             {[ "AAAA-AAAA-AAAA" := fresh_key_data "2025-12-02T10:00:00" ]};
     users := {[ "7" := {| user_id := 7; username := Some "@seven";
                           key_used := "BBBB-BBBB-BBBB";
                           user_activated_at := "2025-12-03T10:00:00" |} ]} |}.

(** The order [get_all_keys] sorts by: the sort key of [a] is not below that
    of [b]. *)
Definition key_ge (a b : AccessKey) : Prop :=
  sort_key_lt (sort_key a) (sort_key b) = false.

(** Invariants of the store. *)

(** A key has [activated_by] and [activated_at] both null or both set. *)
Definition inv_key_fields (s : Storage) : Prop :=
  ∀ tok kd, keys s !! tok = Some kd →
    (activated_by kd = None ↔ activated_at kd = None).

(** A user's record is stored under the text of its own [user_id]. *)
Definition inv_user_index (s : Storage) : Prop :=
  ∀ k r, users s !! k = Some r → k = str (user_id r).

(** A user's record names a stored key that this user activated. *)
Definition inv_user_key (s : Storage) : Prop :=
  ∀ k r, users s !! k = Some r →
    ∃ kd, keys s !! key_used r = Some kd ∧ activated_by kd = Some (user_id r).

(** No key is activated by the user id [0]. *)
Definition inv_nonzero (s : Storage) : Prop :=
  ∀ tok kd, keys s !! tok = Some kd → activated_by kd ≠ Some 0%Z.

(** At most one record for each [user_id]. *)
Definition unique_user_id (s : Storage) : Prop :=
  ∀ k1 k2 r1 r2, users s !! k1 = Some r1 → users s !! k2 = Some r2 →
    user_id r1 = user_id r2 → k1 = k2.

(** At most one record for each [key_used]. *)
Definition unique_key_used (s : Storage) : Prop :=
  ∀ k1 k2 r1 r2, users s !! k1 = Some r1 → users s !! k2 = Some r2 →
    key_used r1 = key_used r2 → k1 = k2.

(** Between [s] and [s'], a key that is activated and still stored keeps its
    activator. *)
Definition activation_kept (s s' : Storage) : Prop :=
  ∀ tok kd kd' u, keys s !! tok = Some kd → activated_by kd = Some u →
    keys s' !! tok = Some kd' → activated_by kd' = Some u.

(** A character of a token: of the alphabet, or the separator. *)
Definition key_or_dash (c : ascii) : bool := is_key_char c || Ascii.eqb c "-".

(** A byte that is a printable ASCII character other than the space. *)
Definition plain (n : nat) : bool := ((33 <=? n) && (n <? 127))%nat.

(** A list of separators none of which starts with a plain byte. *)
Definition no_plain_head (ws : list (list nat)) : bool :=
  forallb (λ w, match w with a :: _ => negb (plain a) | [] => false end) ws.

(** The invariant behind "one record for each key": it is kept by every call
    that does not activate a key for the user id [0]. *)
Definition linked (s : Storage) : Prop :=
  inv_user_index s ∧ inv_user_key s ∧ inv_nonzero s.

(** The network error of an attempt, if it ended with one. *)
Definition net_error_of (o : Client.get_outcome) : option net_error :=
  match o with
  | Client.GetRaises e => Some e
  | Client.GetResponse _ _ => None
  end.

(** The steps of [k] attempts that each end with a network error and are
    followed by a pause of [2 ^ attempt] seconds, from attempt [a] on. *)
Definition failed_attempts (a k : nat) : list Client.event :=
  flat_map (λ j, [Client.EvGet; Client.EvSleep (2 ^ Z.of_nat j)]) (seq a k).

(** [k] failed attempts and their pauses, then one more request. *)
Definition retry_trace (k : nat) : list Client.event :=
  (failed_attempts 0 k ++ [Client.EvGet])%list.

(** An environment in which every request times out. *)
Definition always_timeout : nat → Client.get_outcome :=
  λ _, Client.GetRaises TimeoutException.

(** An environment in which the first request times out and the others are
    answered with the given status and body. *)
Definition timeout_then (status : Z) (body : option pyval) : nat → Client.get_outcome :=
  λ attempt, match attempt with
             | O => Client.GetRaises TimeoutException
             | S _ => Client.GetResponse status body
             end.

(** The payload of the specification's example. *)
Definition sample_payload : pyval :=
  PDict [("payload",
          PList [PDict [("homework", PStr "Read ch.5");
                        ("date", PStr "2025-12-15");
                        ("subject_name", PStr "Math")]])].

Definition sample_item : Client.HomeworkItem :=
  {| Client.subject := PStr "Math";
     Client.homework_date := {| Client.year := 2025; Client.month := 12; Client.day := 15 |};
     Client.homework_text := Client.Text "Read ch.5";
     Client.is_done := PBool false;
     Client.materials := [] |}.

(** A well-formed element, as in the specification's example. *)
Definition good_element : pyval :=
  PDict [("homework", PStr "Read ch.5");
         ("date", PStr "2025-12-15");
         ("subject_name", PStr "Math")].

(** An element whose ["date"] is JSON [null]. *)
Definition null_date_element : pyval :=
  PDict [("homework", PStr "Learn the poem");
         ("date", PNone);
         ("subject_name", PStr "Literature")].

(** An element whose ["materials"] is a number. *)
Definition number_materials_element : pyval :=
  PDict [("homework", PStr "Ex. 5");
         ("date", PStr "2025-12-15");
         ("subject_name", PStr "Algebra");
         ("materials", PInt 5)].

(** An element without subject name ([null]), on the day of [good_element]. *)
Definition null_subject_element : pyval :=
  PDict [("homework", PStr "Ex. 7");
         ("date", PStr "2025-12-15");
         ("subject_name", PNone)].

(** The value [_parse_homeworks] iterates over, for a dictionary [d]. *)
Definition unwrap (d : list (string * pyval)) : pyval :=
  py_or (py_or (py_or (get d "payload") (get d "response")) (get d "data")) (PList []).

(** The text of an element: [str(hw.get("homework") or hw.get("description") or "").strip()]. *)
Definition element_text (h : list (string * pyval)) : Client.text :=
  Client.text_strip
    (Client.py_str (py_or (py_or (get h "homework") (get h "description")) (PStr ""))).

End Props.

(* ===================================================================== *)
(** ** The key keyboard: [app/keyboards/inline.py] *)
(* ===================================================================== *)

Module Keyboards.
Import Store.

(** [InlineKeyboardButton(text=..., callback_data=...)] *)
Record InlineKeyboardButton := mkButton {
  text : string;
  callback_data : string;
}.

(** A byte that continues a UTF-8 character. *)
Definition is_continuation (c : ascii) : bool :=
  let n := nat_of_ascii c in ((128 <=? n) && (n <? 192))%nat.

(** [s[:n]]: the first [n] characters of a text. *)
Fixpoint take_chars (n : nat) (s : string) : string :=
  match s with
  | EmptyString => EmptyString
  | String c s' =>
      if is_continuation c then String c (take_chars n s')
      else
        match n with
        | O => EmptyString
        | S n' => String c (take_chars n' s')
        end
  end.

(** The button of one key: [k.key[:8] + "..."] as its label, the whole token
    in its callback data. *)
Definition delete_button (k : AccessKey) : InlineKeyboardButton :=
  let short_key := take_chars 8 (key k) ++ "..." in
  {| text := "🗑 " ++ short_key;
     callback_data := "delete_key:" ++ key k |}.

Definition back_button : InlineKeyboardButton :=
  {| text := "◀️ Назад"; callback_data := "admin_menu" |}.

(** [get_keys_list_keyboard]: one row for each of the first eight keys, then
    the row of the back button. *)
Definition get_keys_list_keyboard (keys : list AccessKey) (unused : bool)
    : list (list InlineKeyboardButton) :=
  (map (λ k, [delete_button k]) (take 8 keys) ++ [[back_button]])%list.

End Keyboards.

(* ===================================================================== *)
(** ** The admin menu: [app/handlers/admin.py] *)
(* ===================================================================== *)

Module Admin.
Import Store Keyboards.

(** What a handler sends back. *)
Inductive action :=
  | AlertNoAccess        (* callback.answer("⛔ Нет доступа", show_alert=True) *)
  | AlertDeleted         (* callback.answer("🗑 Ключ удалён!", show_alert=True) *)
  | AlertNotFound        (* callback.answer("❌ Ключ не найден", show_alert=True) *)
  | ShowPanel (unused used users : nat)
                         (* edit_text: the panel with its three counts *)
  | ShowCreated (key : string)
                         (* edit_text: "Ключ создан!" with the token *)
  | ShowNoKeys           (* edit_text: "Нет активных ключей" / "Нет использованных ключей" *)
  | ShowKeys (listed : list AccessKey) (keyboard : list (list InlineKeyboardButton))
                         (* edit_text: the keys of the text, with the keyboard *)
  | Answer               (* callback.answer() / callback.answer("Ключ создан!") *).

(** The module-level [is_admin]: false while no storage is set. *)
Definition is_admin (storage : option Storage) (uid : Z) : bool :=
  match storage with
  | None => false
  | Some s => Store.is_admin uid s
  end.

(** [admin_menu] *)
Definition admin_menu (storage : option Storage) (uid : Z) : list action :=
  match storage with
  | Some s =>
      if Store.is_admin uid s then
        [ShowPanel (length (get_unused_keys s)) (length (get_used_keys s))
                   (get_user_count s);
         Answer]
      else [AlertNoAccess]
  | None => [AlertNoAccess]
  end.

(** [data.split(":", 1)[1]]: the text after the first colon; [None] is the
    [IndexError] of a text without colon. *)
Fixpoint after_colon (data : string) : option string :=
  match data with
  | EmptyString => None
  | String c data' => if Ascii.eqb c ":" then Some data' else after_colon data'
  end.

(** [admin_delete_key], for the callback data [data] of the sender [uid]: the
    actions and the storage after the call. *)
Definition admin_delete_key (storage : option Storage) (uid : Z) (data : string)
    : option (list action * option Storage) :=
  match storage with
  | Some s =>
      if Store.is_admin uid s then
        match after_colon data with
        | None => None
        | Some key =>
            let '(deleted, s') := delete_key key s in
            Some ((if deleted then AlertDeleted else AlertNotFound)
                    :: admin_menu (Some s') uid,
                  Some s')
        end
      else Some ([AlertNoAccess], storage)
  | None => Some ([AlertNoAccess], storage)
  end.

(** [admin_create_key]; [None] while the loop of [generate_key] runs. *)
Definition admin_create_key (storage : option Storage) (uid : Z)
    (fuel : nat) (rnd : nat → nat) (pos : nat) (now : string)
    : option (list action * option Storage) :=
  match storage with
  | Some s =>
      if Store.is_admin uid s then
        match generate_key fuel rnd pos now s with
        | Some (key, _, s') => Some ([ShowCreated key; Answer], Some s')
        | None => None
        end
      else Some ([AlertNoAccess], storage)
  | None => Some ([AlertNoAccess], storage)
  end.

(** The common body of [admin_unused_keys] and [admin_used_keys]: the text
    names the first twenty keys, the keyboard is built from the first ten. *)
Definition show_keys (keys : list AccessKey) (unused : bool) : list action :=
  match keys with
  | [] => [ShowNoKeys; Answer]
  | _ => [ShowKeys (take 20 keys) (get_keys_list_keyboard (take 10 keys) unused);
          Answer]
  end.

(** [admin_unused_keys] *)
Definition admin_unused_keys (storage : option Storage) (uid : Z) : list action :=
  match storage with
  | Some s =>
      if Store.is_admin uid s then show_keys (get_unused_keys s) true
      else [AlertNoAccess]
  | None => [AlertNoAccess]
  end.

(** [admin_used_keys] *)
Definition admin_used_keys (storage : option Storage) (uid : Z) : list action :=
  match storage with
  | Some s =>
      if Store.is_admin uid s then show_keys (get_used_keys s) false
      else [AlertNoAccess]
  | None => [AlertNoAccess]
  end.

End Admin.

(* ===================================================================== *)
(** ** Access and homework handlers: [app/handlers/homework.py] *)
(* ===================================================================== *)

Module Bot.
Import Store Py Client Handler.

(** The state of the conversation ([FSMContext]). *)
Inductive fsm :=
  | NoState
  | WaitingForKey    (* KeyInputState.waiting_for_key *)
  | WaitingForDate.  (* DateInputState.waiting_for_date *)

Inductive greeting :=
  | GreetCreator     (* "Привет, создатель!" *)
  | GreetInvited     (* "Добро пожаловать в бета-тест!" *)
  | AskForKey.       (* "Доступ ограничен ... отправь его сейчас" *)

(** [cmd_start]: the message sent and the state of the conversation after
    it. *)
Definition cmd_start (uid : Z) (s : Storage) : greeting * fsm :=
  if is_authorized uid s then
    if Store.is_admin uid s then (GreetCreator, NoState)
    else (GreetInvited, NoState)
  else (AskForKey, WaitingForKey).

(** The state after [process_key_input]: cleared by an activation, kept
    otherwise. *)
Definition key_input_state (r : reply) : fsm :=
  match r with
  | ReplyActivated => NoState
  | ReplyRejected => WaitingForKey
  end.

Inductive event_kind := IsMessage | IsCallback.

Inductive denial :=
  | DenialMessage    (* event.answer("Доступ ограничен ...") *)
  | DenialAlert.     (* event.answer("⛔ Нет доступа. Введи /start", show_alert=True) *)

(** [check_access]: the verdict, the denial sent and the state set, if any.
    An event without sender counts as the user id [0]. *)
Definition check_access (kind : event_kind) (from_user : option Z)
    (has_state : bool) (s : Storage) : bool * option denial * option fsm :=
  let user_id := match from_user with Some u => u | None => 0%Z end in
  if negb (is_authorized user_id s) then
    match kind with
    | IsMessage =>
        (false, Some DenialMessage, if has_state then Some WaitingForKey else None)
    | IsCallback => (false, Some DenialAlert, None)
    end
  else (true, None, None).

(** What [send_homework] answers: the text of [format_homework_list], kept as
    its arguments, or the text of the API error. *)
Inductive answer :=
  | AnswerLoading      (* callback.answer("Загружаю...") *)
  | AnswerNoClient     (* "Клиент API не инициализирован" *)
  | AnswerHomework (items : list HomeworkItem) (target_date : date) (is_range : bool)
  | AnswerError (message : api_message).

(** The outcome of a handler that may call the API: its answers, the steps of
    the client and the exception that leaves the handler, if any. *)
Record outcome := mkOutcome {
  answers : list answer;
  steps : list event;
  raised : option exn;
}.

(** [send_homework]; [client] is [None] while no client is set, otherwise the
    outcomes of the requests. *)
Definition send_homework (client : option (nat → get_outcome))
    (from_date : date) (is_range : bool) : outcome :=
  match client with
  | None => {| answers := [AnswerNoClient]; steps := []; raised := None |}
  | Some env =>
      let '(r, trace) := fetch_homeworks default_max_retries env in
      match r with
      | Ok items =>
          let items :=
            if negb is_range
            then List.filter (λ item, date_eqb (homework_date item) from_date) items
            else items in
          {| answers := [AnswerHomework items from_date is_range];
             steps := trace; raised := None |}
      | Raise (AutheduAPIError message _) =>
          {| answers := [AnswerError message]; steps := trace; raised := None |}
      | Raise e => {| answers := []; steps := trace; raised := Some e |}
      end
  end.

(** [hw_today], for a callback of [from_user] on the day [today]: the denial
    of [check_access], or the loading notice followed by [send_homework]. *)
Definition hw_today (from_user : option Z) (today : date)
    (client : option (nat → get_outcome)) (s : Storage) : option denial * outcome :=
  match check_access IsCallback from_user false s with
  | (true, _, _) =>
      let o := send_homework client today false in
      (None, {| answers := AnswerLoading :: answers o;
                steps := steps o; raised := raised o |})
  | (false, d, _) => (d, {| answers := []; steps := []; raised := None |})
  end.

End Bot.

(* ===================================================================== *)
(** ** Configuration: [app/config.py] *)
(* ===================================================================== *)

Module Config.
Import Py.

(** [value.split(",")] *)
Fixpoint split_comma (value : string) : list string :=
  match value with
  | EmptyString => [EmptyString]
  | String c value' =>
      let parts := split_comma value' in
      if Ascii.eqb c "," then EmptyString :: parts
      else
        match parts with
        | p :: ps => String c p :: ps
        | [] => [String c EmptyString]
        end
  end.

Definition digit_value (c : ascii) : option N :=
  let n := N_of_ascii c in
  if ((48 <=? n) && (n <=? 57))%N then Some (n - 48)%N else None.

(** The number a text of decimal digits spells, from the value [acc] of the
    digits before it; [None] if a character is not a digit. *)
Fixpoint digits_value (acc : N) (part : string) : option N :=
  match part with
  | EmptyString => Some acc
  | String c part' =>
      match digit_value c with
      | Some d => digits_value (10 * acc + d) part'
      | None => None
      end
  end.

(** [part.isdigit()], for ASCII text: not empty, and digits only. *)
Definition isdigit (part : string) : bool :=
  negb (String.eqb part "") &&
  match digits_value 0 part with Some _ => true | None => false end.

(** [int(part)] for a text of digits. *)
Definition int (part : string) : Z :=
  match digits_value 0 part with Some n => Z.of_N n | None => 0%Z end.

(** [parse_user_ids], for ASCII text of at most 4300 characters.  The
    digits of other scripts, and the limit Python puts on the length of a
    text that [int] converts (4300 digits by default), are not part of the
    embedding ([None]). *)
Definition parse_user_ids (value : string) : option (gset Z) :=
  if is_ascii_text value && (String.length value <=? 4300)%nat then
    Some (foldl (λ (ids : gset Z) part,
                   let part := strip part in
                   if isdigit part then {[ int part ]} ∪ ids else ids)
                ∅ (split_comma value))
  else None.

(** [",".join(parts)] *)
Fixpoint join_comma (parts : list string) : string :=
  match parts with
  | [] => EmptyString
  | [p] => p
  | p :: ps => p ++ "," ++ join_comma ps
  end.

End Config.

(* ===================================================================== *)
(** ** Vocabulary of the further properties *)
(* ===================================================================== *)

Module Terms.
Import Store Py Client Props.

(** Newest first: the creation time of [a] is not below that of [b]. *)
Definition newer_or_same (a b : AccessKey) : Prop :=
  Store.str_lt (ak_created_at a) (ak_created_at b) = false.

(** The keys of a store with their fields, as the listing shows them. *)
Definition listed (s : Storage) (k : AccessKey) : Prop :=
  ∃ kd, keys s !! key k = Some kd ∧ k = to_AccessKey (key k, kd).

(** Every activated key has the record of its activator, which names it. *)
Definition inv_key_user (s : Storage) : Prop :=
  ∀ tok kd u, keys s !! tok = Some kd → activated_by kd = Some u →
    ∃ r, users s !! str u = Some r ∧ key_used r = tok.

(** The number of used keys of a store. *)
Definition used_count (s : Storage) : nat :=
  size (filter (λ kv : string * KeyData, is_Some (activated_by kv.2)) (keys s)).

(** The invariant behind the counters: the records and the used keys name
    each other. *)
Definition balanced (s : Storage) : Prop :=
  linked s ∧ inv_key_user s ∧ get_user_count s = used_count s.

(** An ASCII white-space byte: tab, line feed, vertical tab, form feed,
    carriage return, the four separators, or the space. *)
Definition ascii_space (n : nat) : bool :=
  ((9 <=? n) && (n <=? 13) || (28 <=? n) && (n <=? 32))%nat.

(** A text of ASCII white space only. *)
Definition blank (s : string) : bool := forallb ascii_space (bytes_of s).

(** The order of the parser's result: by day, then by subject. *)
Definition item_le (x y : HomeworkItem) : Prop := item_lt y x = Ok false.

(** A value a [for] loop can run over once [or []] has replaced a false
    one. *)
Definition iterable (v : pyval) : bool :=
  match py_or v (PList []) with
  | PList _ | PDict _ | PStr _ => true
  | _ => false
  end.

(** An attachment group whose ["urls"] can be run over. *)
Definition tame_material (mat : pyval) : bool :=
  match mat with
  | PDict m => iterable (get m "urls")
  | _ => true
  end.

(** An element the parser handles without exception: its ["date"], if
    present, is a string, its subject, if present, is a string, and its
    ["materials"] and their ["urls"] can be run over. *)
Definition tame_element (hw : pyval) : bool :=
  match hw with
  | PDict h =>
      match get_default h "date" (PStr "") with PStr _ => true | _ => false end
      && match get_default h "subject_name" (PStr "") with PStr _ => true | _ => false end
      && iterable (get h "materials")
      && match py_iter (py_or (get h "materials") (PList [])) with
         | Ok mats => forallb tame_material mats
         | Raise _ => false
         end
  | _ => true
  end.

(** The list [_parse_homeworks] runs over: the payload itself, or the list a
    dictionary wraps; empty for every other payload. *)
Definition elements_of (data : pyval) : list pyval :=
  match (match data with PDict d => unwrap d | _ => data end) with
  | PList l => l
  | _ => []
  end.

(** The subject of an item whose subject is a string. *)
Definition subject_text (i : HomeworkItem) : string :=
  match subject i with PStr s => s | _ => "" end.

Definition text_subject (i : HomeworkItem) : Prop := ∃ s, subject i = PStr s.

(** The order of [(homework_date, subject)] for subjects that are strings. *)
Definition key_lt (x y : HomeworkItem) : bool :=
  if negb (date_eqb (homework_date x) (homework_date y))
  then date_ltb (homework_date x) (homework_date y)
  else Py.str_lt (subject_text x) (subject_text y).

(** A decimal digit. *)
Definition digit_char (c : ascii) : bool :=
  match Config.digit_value c with Some _ => true | None => false end.

(** A text of decimal digits, possibly empty. *)
Definition digit_text (s : string) : bool :=
  forallb digit_char (list_ascii_of_string s).

(** The seconds a trace pauses in total. *)
Definition total_pause (trace : list event) : Z := foldr Z.add 0%Z (sleeps trace).

End Terms.

(* ===================================================================== *)
(** ** The data file (app/services/storage.py) *)
(* ===================================================================== *)

Module Saved.
Import Store.

(** What the data file [data.json] holds. *)
Inductive file_content :=
  | Missing     (* there is no data file *)
  | Dumped (ks : gmap string KeyData) (us : gmap string UserData)
                (* the complete [json.dump] of a [_data] with these keys and users *)
  | Partial.    (* the file was opened for writing and the dump did not complete *)

(** How the write of [_save] ends: [open(DATA_FILE, "w")] raises, or the
    file is opened, which empties it, and [json.dump] raises, or both
    return. *)
Inductive write_outcome :=
  | Written
  | OpenRaises
  | DumpRaises.

(** [Storage._save]: the file after the call.  Every exception of the write
    is caught and logged, none leaves [_save]. *)
Definition _save (w : write_outcome) (s : Storage) (file : file_content) : file_content :=
  match w with
  | Written => Dumped (keys s) (users s)
  | OpenRaises => file
  | DumpRaises => Partial
  end.

(** The store object with its file. *)
Record Disk := mkDisk {
  memory : Storage;          (* admin_id and _data *)
  file : file_content;       (* DATA_FILE *)
}.

(** [Storage.activate_key] with its write: [Store.activate_key] gives the
    flag and the change of [_data]; [_save] is called on the path that
    returns [True], and on no other. *)
Definition activate_key (k : string) (user_id : Z) (username : option string)
    (now : string) (w : write_outcome) (d : Disk) : bool * Disk :=
  let '(ok, s') := Store.activate_key k user_id username now (memory d) in
  if ok then (true, {| memory := s'; file := _save w s' (file d) |})
  else (false, d).

(** The file holds the data of the store. *)
Definition persisted (d : Disk) : Prop :=
  file d = Dumped (keys (memory d)) (users (memory d)).

(** A store with one unused key whose file is up to date. *)
Definition one_key_disk : Disk :=
  {| memory := Props.one_key_store;
     file := Dumped (keys Props.one_key_store) (users Props.one_key_store) |}.

End Saved.

(* ===================================================================== *)
(** ** The parser over the date reader of the Python version in use *)
(* ===================================================================== *)

Module Reader.
Import Py Client.

Section WithReader.

(** [date.fromisoformat] on a string, as the Python version in use reads it:
    the date, or [None] for [ValueError].  Every version reads [YYYY-MM-DD]
    ([parse_iso_date]); from Python 3.11 on the other ISO 8601 spellings of
    a date are read too. *)
Variable read_date : string → option date.

Definition fromisoformat (v : pyval) : result date :=
  match v with
  | PStr s =>
      match read_date s with
      | Some d => Ok d
      | None => Raise ValueError
      end
  | _ => Raise TypeError
  end.

(** The body of the loop over [data], as [Client.parse_element]. *)
Definition parse_element (hw : pyval) : result (option HomeworkItem) :=
  match hw with
  | PDict h =>
      let homework_text :=
        text_strip (py_str (py_or (py_or (get h "homework") (get h "description")) (PStr ""))) in
      if text_is_empty homework_text then Ok None
      else
        let date_str := get_default h "date" (PStr "") in
        match fromisoformat date_str with
        | Raise ValueError => Ok None
        | Raise e => Raise e
        | Ok homework_date =>
            let subject := get_default h "subject_name" (PStr "Без предмета") in
            let is_done := get_default h "is_done" (PBool false) in
            let materials_raw := py_or (get h "materials") (PList []) in
            mats ← py_iter materials_raw;
            materials ← parse_materials mats;
            Ok (Some {| subject := subject;
                        homework_date := homework_date;
                        homework_text := homework_text;
                        is_done := is_done;
                        materials := materials |})
        end
  | _ => Ok None
  end.

Fixpoint parse_elements (data : list pyval) : result (list HomeworkItem) :=
  match data with
  | [] => Ok []
  | hw :: rest =>
      item ← parse_element hw;
      items ← parse_elements rest;
      Ok (match item with Some i => i :: items | None => items end)
  end.

(** [AutheduClient._parse_homeworks] *)
Definition _parse_homeworks (data : pyval) : result (list HomeworkItem) :=
  let data :=
    match data with
    | PDict d =>
        py_or (py_or (py_or (get d "payload") (get d "response")) (get d "data")) (PList [])
    | _ => data
    end in
  match data with
  | PList l => items ← parse_elements l; sort_items items
  | _ => Ok []
  end.

End WithReader.


End Reader.

(* ===================================================================== *)
(** ** Properties of the store *)
(* ===================================================================== *)

Import Store Py Props.

(** *** [activate_key] *)

Lemma activate_key_unknown s tok uid name now :
  keys s !! tok = None → activate_key tok uid name now s = (false, s).
Proof. intros H. unfold activate_key. by rewrite H. Qed.

Lemma activate_key_used s tok kd u uid name now :
  keys s !! tok = Some kd → activated_by kd = Some u →
  activate_key tok uid name now s = (false, s).
Proof. intros H1 H2. unfold activate_key. by rewrite H1, H2. Qed.

Lemma activate_key_user_known s tok uid name now :
  is_Some (users s !! str uid) → activate_key tok uid name now s = (false, s).
Proof.
  intros [r Hr]. unfold activate_key.
  destruct (keys s !! tok) as [kd|]; [|done].
  destruct (activated_by kd); [done|]. by rewrite Hr.
Qed.

Lemma activate_key_success s tok kd uid name now :
  keys s !! tok = Some kd → activated_by kd = None → users s !! str uid = None →
  activate_key tok uid name now s =
    (true,
     {| admin_id := admin_id s;
        keys := <[tok := {| created_at := created_at kd;
                            activated_by := Some uid;
                            activated_by_username := name;
                            activated_at := Some now |}]> (keys s);
        users := <[str uid := {| user_id := uid; username := name;
                                 key_used := tok; user_activated_at := now |}]>
                   (users s) |}).
Proof. intros H1 H2 H3. unfold activate_key. by rewrite H1, H2, H3. Qed.

Lemma activate_key_true_iff s tok uid name now :
  (activate_key tok uid name now s).1 = true ↔ can_activate s tok uid.
Proof.
  unfold can_activate. split.
  - unfold activate_key.
    destruct (keys s !! tok) as [kd|] eqn:Hk; [|done].
    destruct (activated_by kd) eqn:Ha; [done|].
    destruct (users s !! str uid) eqn:Hu; [done|]. eauto.
  - intros [(kd & Hk & Ha) Hu]. by rewrite (activate_key_success _ _ kd).
Qed.

Lemma activate_key_false_unchanged s tok uid name now :
  (activate_key tok uid name now s).1 = false →
  (activate_key tok uid name now s).2 = s.
Proof.
  unfold activate_key.
  destruct (keys s !! tok) as [kd|]; [|done].
  destruct (activated_by kd); [done|].
  by destruct (users s !! str uid).
Qed.

(** The change [activate_key] makes to the data of the store ([_data]), the
    file left aside: it returns true exactly when the token is stored, its
    [activated_by] is null and the user has no record; it then stores the
    activation in the key and the user's record.  In every other case it
    returns false and the data are unchanged.  After a successful
    activation, every further activation of the same token, by any user,
    returns false and leaves the data (so the key's [activated_by], the
    first activator) as they are; and every further activation by the same
    user, with any token, returns false and leaves the data as they are. *)
Lemma activate_key_spec (s : Storage) (tok : string) (uid : Z)
    (name : option string) (now : string) :
  let r := activate_key tok uid name now s in
  (r.1 = true ↔ can_activate s tok uid)
  ∧ (r.1 = true →
       ∃ kd, keys s !! tok = Some kd
         ∧ keys r.2 = <[tok := {| created_at := created_at kd;
                                   activated_by := Some uid;
                                   activated_by_username := name;
                                   activated_at := Some now |}]> (keys s)
         ∧ users r.2 = <[str uid := {| user_id := uid; username := name;
                                        key_used := tok;
                                        user_activated_at := now |}]> (users s)
         ∧ admin_id r.2 = admin_id s)
  ∧ (r.1 = false → r.2 = s)
  ∧ (r.1 = true → ∀ uid2 name2 now2,
       activate_key tok uid2 name2 now2 r.2 = (false, r.2)
       ∧ activated_by <$> keys r.2 !! tok = Some (Some uid))
  ∧ (r.1 = true → ∀ tok2 name2 now2,
       activate_key tok2 uid name2 now2 r.2 = (false, r.2)).
Proof.
  intros r. subst r. split; [apply activate_key_true_iff|].
  split; [|split; [apply activate_key_false_unchanged|]].
  - intros [(kd & Hk & Ha) Hu]%activate_key_true_iff.
    rewrite (activate_key_success _ _ kd) by done. eauto.
  - split.
    + intros [(kd & Hk & Ha) Hu]%activate_key_true_iff uid2 name2 now2.
      rewrite (activate_key_success s tok kd uid name now) by done. simpl. split.
      * eapply activate_key_used; simpl; [apply lookup_insert_eq|done].
      * by rewrite lookup_insert_eq.
    + intros [(kd & Hk & Ha) Hu]%activate_key_true_iff tok2 name2 now2.
      rewrite (activate_key_success s tok kd uid name now) by done. simpl.
      apply activate_key_user_known. simpl. rewrite lookup_insert_eq. eauto.
Qed.

Lemma activate_key_spec_witness :
  (activate_key "ABCD-EFGH-IJKL" 7 (Some "@ann") "2025-12-02T09:00:00" one_key_store).1 = true
  ∧ ∀ uid2 name2 now2,
      let s' := (activate_key "ABCD-EFGH-IJKL" 7 (Some "@ann") "2025-12-02T09:00:00" one_key_store).2 in
      activate_key "ABCD-EFGH-IJKL" uid2 name2 now2 s' = (false, s')
      ∧ activated_by <$> keys s' !! "ABCD-EFGH-IJKL" = Some (Some 7%Z).
Proof.
  pose proof (activate_key_spec one_key_store "ABCD-EFGH-IJKL" 7 (Some "@ann")
                "2025-12-02T09:00:00") as (_ & _ & _ & H & _).
  split; [reflexivity|]. exact (H eq_refl).
Defined.

(** *** [activate_key] and the data file *)

Lemma saved_activate_key_true d tok uid name now w s' :
  activate_key tok uid name now (Saved.memory d) = (true, s') →
  Saved.activate_key tok uid name now w d
    = (true, {| Saved.memory := s'; Saved.file := Saved._save w s' (Saved.file d) |}).
Proof. intros H. unfold Saved.activate_key. by rewrite H. Qed.

Lemma saved_activate_key_false d tok uid name now w s' :
  activate_key tok uid name now (Saved.memory d) = (false, s') →
  Saved.activate_key tok uid name now w d = (false, d).
Proof. intros H. unfold Saved.activate_key. by rewrite H. Qed.

Lemma saved_activate_key_flag d tok uid name now w :
  (Saved.activate_key tok uid name now w d).1
  = (activate_key tok uid name now (Saved.memory d)).1.
Proof.
  unfold Saved.activate_key.
  destruct (activate_key tok uid name now (Saved.memory d)) as [[] s']; done.
Qed.

(** C1, as amended.  For every store, every content of its file and every
    outcome of the write, [activate_key] returns true exactly when the token
    is stored, its [activated_by] is null and the user has no record; it then
    stores the activation in the key and the user's record and calls
    [_save]: when the write succeeds the file holds the data with the
    activation; when [open] raises the file is as it was, and when the dump
    raises the file is partial, and in both cases the call still returns
    true with the activation in the data of the store.  In every other case
    it returns false and the data and the file are unchanged.  After a
    successful activation, every further activation of the same token, by
    any user, returns false and leaves data and file (so the key's
    [activated_by], the first activator) as they are; and every further
    activation by the same user, with any token, returns false and leaves
    data and file as they are. *)
Theorem activate_key_saved_spec (d : Saved.Disk) (tok : string) (uid : Z)
    (name : option string) (now : string) (w : Saved.write_outcome) :
  let r := Saved.activate_key tok uid name now w d in
  (r.1 = true ↔ can_activate (Saved.memory d) tok uid)
  ∧ (r.1 = true →
       ∃ kd, keys (Saved.memory d) !! tok = Some kd
         ∧ keys (Saved.memory r.2)
             = <[tok := {| created_at := created_at kd;
                           activated_by := Some uid;
                           activated_by_username := name;
                           activated_at := Some now |}]> (keys (Saved.memory d))
         ∧ users (Saved.memory r.2)
             = <[str uid := {| user_id := uid; username := name;
                               key_used := tok;
                               user_activated_at := now |}]> (users (Saved.memory d))
         ∧ admin_id (Saved.memory r.2) = admin_id (Saved.memory d))
  ∧ (r.1 = true →
       (w = Saved.Written → Saved.persisted r.2)
       ∧ (w = Saved.OpenRaises → Saved.file r.2 = Saved.file d)
       ∧ (w = Saved.DumpRaises → Saved.file r.2 = Saved.Partial))
  ∧ (r.1 = false → r.2 = d)
  ∧ (r.1 = true → ∀ uid2 name2 now2 w2,
       Saved.activate_key tok uid2 name2 now2 w2 r.2 = (false, r.2)
       ∧ activated_by <$> keys (Saved.memory r.2) !! tok = Some (Some uid))
  ∧ (r.1 = true → ∀ tok2 name2 now2 w2,
       Saved.activate_key tok2 uid name2 now2 w2 r.2 = (false, r.2)).
Proof.
  intros r. subst r.
  destruct (activate_key_spec (Saved.memory d) tok uid name now)
    as (Hiff & Hnew & Hsame & Htok & Huser).
  destruct (activate_key tok uid name now (Saved.memory d)) as [ok s'] eqn:E.
  destruct ok.
  - rewrite (saved_activate_key_true d tok uid name now w s' E).
    cbn [fst snd Saved.memory Saved.file] in *.
    split; [exact Hiff|]. split; [exact Hnew|].
    split; [|split; [done|split]].
    + intros _. unfold Saved.persisted.
      cbn [Saved.memory Saved.file].
      by repeat split; intros ->.
    + intros _ uid2 name2 now2 w2.
      destruct (Htok eq_refl uid2 name2 now2) as [H1 H2].
      split; [|exact H2].
      by apply (saved_activate_key_false _ _ _ _ _ _ s').
    + intros _ tok2 name2 now2 w2.
      by apply (saved_activate_key_false _ _ _ _ _ _ s'), Huser.
  - rewrite (saved_activate_key_false d tok uid name now w s' E).
    cbn [fst snd] in *.
    split; [exact Hiff|]. repeat split; done.
Qed.

Lemma activate_key_saved_spec_witness :
  ∃ d', Saved.activate_key "ABCD-EFGH-IJKL" 7 (Some "@ann") "2025-12-02T09:00:00"
          Saved.Written Saved.one_key_disk = (true, d')
    ∧ Saved.persisted d'
    ∧ ∀ uid2 name2 now2 w2,
        Saved.activate_key "ABCD-EFGH-IJKL" uid2 name2 now2 w2 d' = (false, d')
        ∧ activated_by <$> keys (Saved.memory d') !! "ABCD-EFGH-IJKL" = Some (Some 7%Z).
Proof.
  pose proof (activate_key_saved_spec Saved.one_key_disk "ABCD-EFGH-IJKL" 7
                (Some "@ann") "2025-12-02T09:00:00" Saved.Written)
    as (_ & _ & Hfile & _ & Htok & _).
  exists (Saved.activate_key "ABCD-EFGH-IJKL" 7 (Some "@ann") "2025-12-02T09:00:00"
            Saved.Written Saved.one_key_disk).2.
  split; [reflexivity|].
  split; [exact (proj1 (Hfile eq_refl) eq_refl)|exact (Htok eq_refl)].
Defined.

(** C1, refuted as stated.  The store holds the unused key [ABCD-EFGH-IJKL]
    and no user, and its file is up to date.  User 7 activates the key while
    [open] raises in [_save]: the call returns true and the data of the
    store hold the activation, but the file is as it was, where the key is
    still unused: the activation is not persisted. *)
Lemma activate_key_write_fails :
  can_activate (Saved.memory Saved.one_key_disk) "ABCD-EFGH-IJKL" 7
  ∧ Saved.persisted Saved.one_key_disk
  ∧ ∃ d', Saved.activate_key "ABCD-EFGH-IJKL" 7 (Some "@ann") "2025-12-02T09:00:00"
            Saved.OpenRaises Saved.one_key_disk = (true, d')
      ∧ activated_by <$> keys (Saved.memory d') !! "ABCD-EFGH-IJKL" = Some (Some 7%Z)
      ∧ Saved.file d' = Saved.Dumped (keys one_key_store) (users one_key_store)
      ∧ activated_by <$> keys one_key_store !! "ABCD-EFGH-IJKL" = Some None
      ∧ ¬ Saved.persisted d'.
Proof.
  split.
  { split; [|reflexivity].
    exists (fresh_key_data "2025-12-01T10:00:00"). split; reflexivity. }
  split; [reflexivity|].
  eexists. split; [reflexivity|].
  split; [reflexivity|]. split; [reflexivity|]. split; [reflexivity|].
  unfold Saved.persisted. cbn [Saved.memory Saved.file]. intros H.
  apply (f_equal (λ f, match f with
                       | Saved.Dumped ks _ => activated_by <$> (ks !! "ABCD-EFGH-IJKL")
                       | _ => None
                       end)) in H.
  vm_compute in H. discriminate H.
Qed.

(** C10.  [activate_key] does not treat the configured super-user apart: when
    the super-user has no record, activating a stored unused token with the
    super-user's id returns true, marks the key as used by that id and
    creates the super-user's record. *)
Theorem activate_key_super_user (s : Storage) (tok : string) (kd : KeyData)
    (name : option string) (now : string) :
  keys s !! tok = Some kd →
  activated_by kd = None →
  users s !! str (admin_id s) = None →
  is_admin (admin_id s) s = true
  ∧ ∃ s', activate_key tok (admin_id s) name now s = (true, s')
      ∧ keys s' !! tok = Some {| created_at := created_at kd;
                                 activated_by := Some (admin_id s);
                                 activated_by_username := name;
                                 activated_at := Some now |}
      ∧ users s' !! str (admin_id s)
          = Some {| user_id := admin_id s; username := name;
                    key_used := tok; user_activated_at := now |}
      ∧ get_user_count s' = S (get_user_count s).
Proof.
  intros Hk Ha Hu. split.
  { unfold is_admin. apply Z.eqb_refl. }
  eexists. split; [by apply (activate_key_success _ _ kd)|]. simpl.
  rewrite !lookup_insert_eq. repeat split.
  unfold get_user_count. simpl. by apply map_size_insert_None.
Qed.

Lemma activate_key_super_user_witness :
  ∃ s', activate_key "ABCD-EFGH-IJKL" 1 (Some "@root") "2025-12-02T09:00:00" one_key_store = (true, s')
    ∧ is_used (to_AccessKey ("ABCD-EFGH-IJKL", default (fresh_key_data "") (keys s' !! "ABCD-EFGH-IJKL"))) = true
    ∧ is_Some (users s' !! "1").
Proof.
  destruct (activate_key_super_user one_key_store "ABCD-EFGH-IJKL"
              (fresh_key_data "2025-12-01T10:00:00") (Some "@root")
              "2025-12-02T09:00:00" eq_refl eq_refl eq_refl)
    as (_ & s' & Hact & Hkey & Huser & _).
  exists s'. split; [exact Hact|]. split.
  - rewrite Hkey. reflexivity.
  - change "1" with (str (admin_id one_key_store)). rewrite Huser. eauto.
Defined.

(** *** [delete_key] *)

Lemma delete_key_unknown s tok :
  keys s !! tok = None → delete_key tok s = (false, s).
Proof. intros H. unfold delete_key. by rewrite H. Qed.

Lemma delete_key_known s tok kd :
  keys s !! tok = Some kd →
  (delete_key tok s).1 = true
  ∧ keys (delete_key tok s).2 = delete tok (keys s)
  ∧ admin_id (delete_key tok s).2 = admin_id s.
Proof. intros H. unfold delete_key. by rewrite H. Qed.

(** The cascade of [delete_key] for a key activated by a user id other than
    [0]: the user's record goes with the key. *)
Lemma delete_key_removes_user s tok kd u :
  keys s !! tok = Some kd → activated_by kd = Some u → u ≠ 0%Z →
  users (delete_key tok s).2 = delete (str u) (users s)
  ∧ (u ≠ admin_id s → is_authorized u (delete_key tok s).2 = false).
Proof.
  intros Hk Ha Hu. unfold delete_key. rewrite Hk.
  unfold activated_by_truthy. rewrite Ha.
  destruct (Z.eqb_spec u 0) as [|_]; [done|]. simpl. split; [done|].
  intros Hadm. unfold is_authorized. simpl.
  destruct (Z.eqb_spec u (admin_id s)) as [|_]; [done|].
  apply bool_decide_eq_false. rewrite lookup_delete_eq. by intros [? ?].
Qed.

(** C7, evaluated.  A key is generated, activated by the user id [0] and
    deleted: [delete_key] returns true and the key is gone, but the test
    [if key_data.get("activated_by")] is false for the id [0], so the user's
    record stays and [is_authorized(0)] is still true, although [0] is not
    the super-user. *)
Theorem delete_key_keeps_user_zero :
  ∃ s2 s3,
    run (take 2 zero_user_ops) (empty_storage 1) = Some s2
    ∧ activated_by <$> keys s2 !! "AAAA-AAAA-AAAA" = Some (Some 0%Z)
    ∧ is_authorized 0 s2 = true
    ∧ delete_key "AAAA-AAAA-AAAA" s2 = (true, s3)
    ∧ keys s3 !! "AAAA-AAAA-AAAA" = None
    ∧ is_Some (users s3 !! str 0)
    ∧ is_admin 0 s3 = false
    ∧ is_authorized 0 s3 = true.
Proof.
  eexists _, _. split; [reflexivity|].
  split; [by vm_compute|]. split; [by vm_compute|].
  split; [reflexivity|].
  split; [by vm_compute|]. split; [by vm_compute; eauto|].
  split; by vm_compute.
Qed.

(** *** Case of the token: [activate_key], [delete_key] and the key-input handler *)

Import Handler.

Lemma drop_prefix_head_ne a p b l : a ≠ b → drop_prefix (a :: p) (b :: l) = None.
Proof. intros H. simpl. by destruct (Nat.eqb_spec a b). Qed.

Lemma drop_one_plain ws b l :
  no_plain_head ws = true → plain b = true → drop_one ws (b :: l) = None.
Proof.
  intros Hws Hb. induction ws as [|w ws IH]; [done|].
  simpl in Hws. apply andb_true_iff in Hws as [Hw Hws].
  destruct w as [|a p]; [done|].
  cbn [drop_one]. rewrite drop_prefix_head_ne; [by apply IH|].
  intros ->. by rewrite Hb in Hw.
Qed.

Lemma lstrip_bytes_plain fuel ws b l :
  no_plain_head ws = true → plain b = true →
  lstrip_bytes fuel ws (b :: l) = b :: l.
Proof.
  intros Hws Hb. destruct fuel; [done|].
  simpl. by rewrite drop_one_plain.
Qed.

Lemma of_bytes_of s : of_bytes (bytes_of s) = s.
Proof.
  unfold of_bytes, bytes_of. rewrite map_map.
  rewrite (map_ext _ id); [|intros c; apply ascii_nat_embedding].
  rewrite map_id. apply string_of_list_ascii_of_string.
Qed.

(** [strip] leaves a text of plain characters as it is. *)
Lemma strip_plain s :
  forallb plain (bytes_of s) = true → strip s = s.
Proof.
  intros H. unfold strip.
  destruct (bytes_of s) as [|b l] eqn:Hs.
  { destruct (String.length s); cbn; rewrite <- (of_bytes_of s), Hs; done. }
  pose proof H as H'. simpl in H'. apply andb_true_iff in H' as [Hb Hl].
  rewrite lstrip_bytes_plain by done.
  assert (Hrev : forallb plain (rev (b :: l)) = true).
  { apply forallb_forall. intros x Hx%in_rev.
    by apply (proj1 (forallb_forall _ _) H). }
  destruct (rev (b :: l)) as [|b' l'] eqn:Hr.
  { apply (f_equal (@length nat)) in Hr. rewrite length_rev in Hr. done. }
  simpl in Hrev. apply andb_true_iff in Hrev as [Hb' _].
  rewrite lstrip_bytes_plain by done.
  rewrite <- Hr, rev_involutive, <- Hs. apply of_bytes_of.
Qed.

Lemma upper_ascii_key c :
  key_or_dash (upper_ascii c) = true → plain (nat_of_ascii c) = true.
Proof.
  destruct c as [[] [] [] [] [] [] [] []]; vm_compute; congruence.
Qed.

Lemma upper_ascii_fixed c : key_or_dash c = true → upper_ascii c = c.
Proof.
  destruct c as [[] [] [] [] [] [] [] []]; vm_compute; congruence.
Qed.

Lemma token_format_chars tok :
  token_format tok = true →
  forallb key_or_dash (list_ascii_of_string tok) = true.
Proof.
  unfold token_format.
  destruct (list_ascii_of_string tok) as [|a1 l]; [done|].
  do 13 (destruct l as [|? l]; [done|]). destruct l; [|done].
  cbn [forallb]. intros H.
  repeat match goal with
         | H : _ && _ = true |- _ => apply andb_true_iff in H as [? ?]
         end.
  unfold key_or_dash. cbn [forallb].
  repeat (apply andb_true_iff; split); try done;
    apply orb_true_iff; first [by left | by right].
Qed.

(** A text that equals a token up to letter case consists of plain ASCII
    characters, and its upper-case form is the token. *)
Lemma equal_ignoring_case_upper text tok :
  forallb key_or_dash (list_ascii_of_string tok) = true →
  equal_ignoring_case text tok = true →
  forallb plain (bytes_of text) = true
  ∧ is_ascii_text text = true
  ∧ string_of_list_ascii (map upper_ascii (list_ascii_of_string text)) = tok.
Proof.
  revert tok. induction text as [|x text IH]; intros [|c tok]; try done.
  cbn [list_ascii_of_string forallb equal_ignoring_case].
  intros [Hc Htok]%andb_true_iff [Hx Heq]%andb_true_iff.
  apply Ascii.eqb_eq in Hx.
  destruct (IH tok Htok Heq) as (IH1 & IH2 & IH3).
  assert (Hp : plain (nat_of_ascii x) = true).
  { apply upper_ascii_key. by rewrite Hx, upper_ascii_fixed. }
  unfold bytes_of, is_ascii_text in *. cbn [list_ascii_of_string map forallb string_of_list_ascii].
  rewrite IH1, IH2, IH3, Hp, Hx, (upper_ascii_fixed c Hc).
  repeat split. rewrite andb_true_r.
  unfold plain in Hp. apply andb_true_iff in Hp as [_ Hp].
  apply Nat.ltb_lt in Hp. apply Nat.ltb_lt. lia.
Qed.

Lemma upper_strip_token text tok :
  token_format tok = true → equal_ignoring_case text tok = true →
  upper (strip text) = Some tok.
Proof.
  intros Hf Heq.
  destruct (equal_ignoring_case_upper text tok (token_format_chars _ Hf) Heq)
    as (Hp & Ha & Hu).
  rewrite strip_plain by done. unfold upper. by rewrite Ha, Hu.
Qed.

(** C9, as the code has it.  The store looks a token up as it is given:
    [activate_key] and [delete_key] return false and change nothing for every
    text that is not itself a stored token.  The key-input handler strips and
    upper-cases the typed text first: for a token of the generated format, a
    typed text that differs from it only in letter case is handled as the
    activation of that token. *)
Theorem process_key_input_ignores_case (s : Storage) (tok text : string)
    (uid : Z) (tg_username : option string) (full_name now : string) :
  token_format tok = true →
  equal_ignoring_case text tok = true →
  (∀ t name, keys s !! t = None →
     activate_key t uid name now s = (false, s) ∧ delete_key t s = (false, s))
  ∧ process_key_input text uid tg_username full_name now s =
      (let r := activate_key tok uid (Some (display_name tg_username full_name)) now s in
       Some (if r.1 then ReplyActivated else ReplyRejected, r.2))
  ∧ (can_activate s tok uid →
     ∃ s', process_key_input text uid tg_username full_name now s
             = Some (ReplyActivated, s')
       ∧ activated_by <$> keys s' !! tok = Some (Some uid)).
Proof.
  intros Hf Heq.
  assert (Hin : process_key_input text uid tg_username full_name now s =
      (let r := activate_key tok uid (Some (display_name tg_username full_name)) now s in
       Some (if r.1 then ReplyActivated else ReplyRejected, r.2))).
  { unfold process_key_input. rewrite (upper_strip_token text tok) by done.
    by destruct (activate_key _ _ _ _ _). }
  split; [|split; [exact Hin|]].
  - intros t name Ht. split.
    + by apply activate_key_unknown.
    + by apply delete_key_unknown.
  - intros [(kd & Hk & Ha) Hu]. rewrite Hin.
    rewrite (activate_key_success s tok kd) by done. simpl.
    eexists. split; [reflexivity|]. simpl. by rewrite lookup_insert_eq.
Qed.

Lemma process_key_input_ignores_case_witness :
  ∃ s', process_key_input "abcd-Efgh-ijkL" 7 (Some "ann") "Ann" "2025-12-02T09:00:00" one_key_store
          = Some (ReplyActivated, s')
    ∧ activated_by <$> keys s' !! "ABCD-EFGH-IJKL" = Some (Some 7%Z).
Proof.
  destruct (process_key_input_ignores_case one_key_store "ABCD-EFGH-IJKL"
              "abcd-Efgh-ijkL" 7 (Some "ann") "Ann" "2025-12-02T09:00:00"
              eq_refl eq_refl) as (_ & _ & H).
  apply H. split; [|reflexivity].
  exists (fresh_key_data "2025-12-01T10:00:00"). split; reflexivity.
Defined.

(** C9, refuted as stated.  With the key [ABCD-EFGH-IJKL] stored and unused,
    [activate_key] and [delete_key] called with the same token in lower case
    both return false (unknown token) and leave the key as it is. *)
Lemma activate_key_case_sensitive :
  keys one_key_store !! "ABCD-EFGH-IJKL" = Some (fresh_key_data "2025-12-01T10:00:00")
  ∧ equal_ignoring_case "abcd-efgh-ijkl" "ABCD-EFGH-IJKL" = true
  ∧ activate_key "abcd-efgh-ijkl" 7 (Some "@ann") "2025-12-02T09:00:00" one_key_store
      = (false, one_key_store)
  ∧ delete_key "abcd-efgh-ijkl" one_key_store = (false, one_key_store).
Proof. repeat split. Qed.

(** *** [generate_key] *)

Lemma choice_is_key_char r : is_key_char (choice r) = true.
Proof.
  assert (H : forallb is_key_char chars = true) by reflexivity.
  apply (proj1 (forallb_forall _ _) H). unfold choice.
  apply nth_In. apply Nat.mod_upper_bound. by vm_compute.
Qed.

Lemma draw_key_format rnd pos : token_format (draw_key rnd pos) = true.
Proof.
  cbv [draw_key part token_format String.append map seq string_of_list_ascii
       list_ascii_of_string forallb].
  by rewrite !choice_is_key_char.
Qed.

(** The loop leaves with the first candidate that is not stored. *)
Lemma generate_loop_result fuel rnd pos ks k pos' :
  generate_loop fuel rnd pos ks = Some (k, pos') →
  ks !! k = None ∧
  ∃ n, (n < fuel)%nat ∧ k = draw_key rnd (pos + 12 * n)
       ∧ pos' = (pos + 12 * S n)%nat
       ∧ ∀ m, (m < n)%nat → ks !! draw_key rnd (pos + 12 * m) ≠ None.
Proof.
  revert pos. induction fuel as [|fuel IH]; intros pos; [discriminate|].
  cbn [generate_loop].
  destruct (decide (ks !! draw_key rnd pos = None)) as [Hfresh|Hold].
  - intros [= <- <-]. split; [exact Hfresh|]. exists 0%nat.
    split; [lia|]. split; [f_equal; lia|]. split; [lia|]. intros m ?; lia.
  - intros H. apply IH in H as (Hk & n & Hn & Hkn & Hpn & Hprev).
    split; [exact Hk|]. exists (S n).
    split; [lia|]. split; [rewrite Hkn; f_equal; lia|]. split; [lia|].
    intros [|m] Hm.
    + replace (pos + 12 * 0)%nat with pos by lia. exact Hold.
    + replace (pos + 12 * S m)%nat with (pos + 12 + 12 * m)%nat by lia.
      apply Hprev. lia.
Qed.

(** The loop ends as soon as the fuel reaches a candidate that is not
    stored. *)
Lemma generate_loop_returns fuel rnd pos ks n :
  (n < fuel)%nat → ks !! draw_key rnd (pos + 12 * n) = None →
  is_Some (generate_loop fuel rnd pos ks).
Proof.
  revert pos n. induction fuel as [|fuel IH]; intros pos n Hn Hfresh; [lia|].
  cbn [generate_loop].
  destruct (decide (ks !! draw_key rnd pos = None)) as [|Hold]; [eauto|].
  destruct n as [|n].
  - replace (pos + 12 * 0)%nat with pos in Hfresh by lia. contradiction.
  - apply (IH _ n); [lia|].
    replace (pos + 12 + 12 * n)%nat with (pos + 12 * S n)%nat by lia.
    exact Hfresh.
Qed.

Lemma generate_key_result fuel rnd pos now s tok pos' s' :
  generate_key fuel rnd pos now s = Some (tok, pos', s') →
  token_format tok = true
  ∧ keys s !! tok = None
  ∧ keys s' = <[tok := fresh_key_data now]> (keys s)
  ∧ users s' = users s
  ∧ admin_id s' = admin_id s.
Proof.
  unfold generate_key.
  destruct (generate_loop fuel rnd pos (keys s)) as [[k p]|] eqn:Hloop; [|done].
  intros [= <- <- <-].
  apply generate_loop_result in Hloop as (Hfresh & n & _ & -> & _).
  split; [apply draw_key_format|]. done.
Qed.

(** Successive calls only add keys. *)
Lemma generate_key_times_keeps fuel rnd pos nows s toks s' t kd :
  generate_key_times fuel rnd pos nows s = Some (toks, s') →
  keys s !! t = Some kd → keys s' !! t = Some kd.
Proof.
  revert pos s toks. induction nows as [|now nows IH]; intros pos s toks; simpl.
  { by intros [= <- <-]. }
  destruct (generate_key fuel rnd pos now s) as [[[tok p] s1]|] eqn:Hg; [|done].
  destruct (generate_key_times fuel rnd p nows s1) as [[toks1 s2]|] eqn:Hr; [|done].
  intros [= <- <-] Ht.
  apply generate_key_result in Hg as (_ & Hfresh & Hkeys & _).
  eapply IH; [done|]. rewrite Hkeys, lookup_insert_ne; [done|].
  intros ->. congruence.
Qed.

Lemma generate_key_times_result fuel rnd pos nows s toks s' :
  generate_key_times fuel rnd pos nows s = Some (toks, s') →
  length toks = length nows
  ∧ NoDup toks
  ∧ Forall (λ tok, token_format tok = true
                   ∧ keys s !! tok = None
                   ∧ ∃ now, keys s' !! tok = Some (fresh_key_data now)) toks
  ∧ size (keys s') = (size (keys s) + length nows)%nat.
Proof.
  revert pos s toks. induction nows as [|now nows IH]; intros pos s toks; simpl.
  { intros [= <- <-]. repeat split; [constructor|constructor|lia]. }
  destruct (generate_key fuel rnd pos now s) as [[[tok p] s1]|] eqn:Hg; [|done].
  destruct (generate_key_times fuel rnd p nows s1) as [[toks1 s2]|] eqn:Hr; [|done].
  intros [= <- <-].
  apply generate_key_result in Hg as (Hfmt & Hfresh & Hkeys & _).
  destruct (IH _ _ _ Hr) as (Hlen & Hnd & Hall & Hsize).
  split; [simpl; by f_equal|]. split; [|split].
  - constructor; [|done]. intros Hin.
    apply (proj1 (Forall_forall _ _) Hall) in Hin as (_ & Hnone & _).
    by rewrite Hkeys, lookup_insert_eq in Hnone.
  - constructor.
    + repeat split; [done..|]. exists now.
      eapply generate_key_times_keeps; [done|]. by rewrite Hkeys, lookup_insert_eq.
    + eapply Forall_impl; [exact Hall|]. intros t (? & Hnone & ?).
      repeat split; [done| |done].
      rewrite Hkeys in Hnone. by apply lookup_insert_None in Hnone as [? _].
  - rewrite Hsize, Hkeys, map_size_insert_None by done. lia.
Qed.

(** C8.  [generate_key] returns as soon as its loop draws a candidate that is
    not a stored token.  The token it returns has the format of three groups
    of four upper-case letters or digits separated by ['-'], is not a token
    stored before the call, and is stored by the call with [activated_by],
    [activated_by_username] and [activated_at] null, the rest of the store
    unchanged.  Successive calls return pairwise distinct tokens, all of them
    stored: the number of stored keys grows by the number of calls. *)
Theorem generate_key_spec (fuel : nat) (rnd : nat → nat) (pos : nat)
    (now : string) (s : Storage) :
  (∀ n, (n < fuel)%nat → keys s !! draw_key rnd (pos + 12 * n) = None →
     is_Some (generate_key fuel rnd pos now s))
  ∧ (∀ tok pos' s', generate_key fuel rnd pos now s = Some (tok, pos', s') →
       token_format tok = true
       ∧ keys s !! tok = None
       ∧ keys s' = <[tok := {| created_at := now; activated_by := None;
                               activated_by_username := None;
                               activated_at := None |}]> (keys s)
       ∧ users s' = users s)
  ∧ (∀ nows toks s', generate_key_times fuel rnd pos nows s = Some (toks, s') →
       length toks = length nows
       ∧ NoDup toks
       ∧ Forall (λ tok, token_format tok = true
                        ∧ keys s !! tok = None
                        ∧ ∃ now', keys s' !! tok = Some (fresh_key_data now')) toks
       ∧ size (keys s') = (size (keys s) + length nows)%nat).
Proof.
  split; [|split].
  - intros n Hn Hfresh. unfold generate_key.
    destruct (generate_loop_returns fuel rnd pos (keys s) n Hn Hfresh) as [[k p] ->].
    eauto.
  - intros tok pos' s' (? & ? & ? & ? & _)%generate_key_result. done.
  - intros nows toks s'. apply generate_key_times_result.
Qed.

Lemma generate_key_spec_witness :
  is_Some (generate_key 2 (λ i, i) 0 "2025-12-01T10:00:00" one_key_store)
  ∧ ∃ toks s',
      generate_key_times 2 (λ i, i) 0
        ["2025-12-01T10:00:00"; "2025-12-01T10:05:00"] one_key_store = Some (toks, s')
      ∧ length toks = 2%nat ∧ NoDup toks ∧ size (keys s') = 3%nat.
Proof.
  destruct (generate_key_spec 2 (λ i, i) 0 "2025-12-01T10:00:00" one_key_store)
    as (Hret & _ & Htimes).
  split.
  - apply (Hret 1%nat); [lia|]. by vm_compute.
  - eexists _, _. split; [by vm_compute|].
    match goal with
    | |- length ?t = _ ∧ NoDup ?t ∧ size (keys ?s) = _ =>
        destruct (Htimes ["2025-12-01T10:00:00"; "2025-12-01T10:05:00"] t s)
          as (Hlen & Hnd & _ & Hsize); [by vm_compute|]
    end.
    split; [exact Hlen|]. split; [exact Hnd|]. exact Hsize.
Defined.

(** *** [get_all_keys] *)

Lemma str_lt_iff a b : Store.str_lt a b = true ↔ OrderedTypeEx.String_as_OT.lt a b.
Proof.
  unfold Store.str_lt. rewrite <- OrderedTypeEx.String_as_OT.cmp_lt.
  unfold OrderedTypeEx.String_as_OT.cmp.
  destruct (String.compare a b); split; congruence.
Qed.

Lemma str_lt_asym a b : Store.str_lt a b = true → Store.str_lt b a = false.
Proof.
  unfold Store.str_lt. rewrite (String.compare_antisym a b).
  by destruct (String.compare b a).
Qed.

Lemma str_lt_total a b :
  Store.str_lt a b = false → Store.str_lt b a = false → a = b.
Proof.
  unfold Store.str_lt. intros H1 H2. apply String.compare_eq_iff.
  rewrite (String.compare_antisym b a) in H2.
  by destruct (String.compare a b).
Qed.

Lemma str_ge_trans a b c :
  Store.str_lt a b = false → Store.str_lt b c = false → Store.str_lt a c = false.
Proof.
  intros Hab Hbc. destruct (Store.str_lt a c) eqn:Hac; [|done].
  destruct (Store.str_lt b a) eqn:Hba.
  - apply str_lt_iff in Hba, Hac.
    pose proof (OrderedTypeEx.String_as_OT.lt_trans _ _ _ Hba Hac) as H.
    apply str_lt_iff in H. congruence.
  - assert (a = b) as -> by by apply str_lt_total. congruence.
Qed.

Lemma sort_key_lt_asym a b :
  sort_key_lt a b = true → sort_key_lt b a = false.
Proof.
  destruct a as [[] x], b as [[] y]; unfold sort_key_lt; simpl;
    try done; apply str_lt_asym.
Qed.

Lemma sort_key_ge_trans a b c :
  sort_key_lt a b = false → sort_key_lt b c = false → sort_key_lt a c = false.
Proof.
  destruct a as [[] x], b as [[] y], c as [[] z]; unfold sort_key_lt; simpl;
    try done; apply str_ge_trans.
Qed.

Lemma insert_reverse_perm x (l : list AccessKey) :
  insert_reverse sort_key sort_key_lt x l ≡ₚ x :: l.
Proof.
  induction l as [|y l IH]; simpl; [done|].
  destruct (sort_key_lt (sort_key x) (sort_key y)); [|done].
  rewrite IH. apply Permutation_swap.
Qed.

Lemma sort_reverse_perm (l : list AccessKey) :
  sort_reverse sort_key sort_key_lt l ≡ₚ l.
Proof.
  induction l as [|x l IH]; simpl; [done|].
  fold (sort_reverse sort_key sort_key_lt l).
  by rewrite insert_reverse_perm, IH.
Qed.

Lemma insert_reverse_sorted x (l : list AccessKey) :
  StronglySorted key_ge l →
  StronglySorted key_ge (insert_reverse sort_key sort_key_lt x l).
Proof.
  induction 1 as [|y l Hl IH Hy]; simpl; [by repeat constructor|].
  destruct (sort_key_lt (sort_key x) (sort_key y)) eqn:Hxy.
  - constructor; [done|].
    apply Forall_forall. intros z Hz.
    rewrite insert_reverse_perm in Hz.
    apply elem_of_cons in Hz as [->|Hz].
    + by apply sort_key_lt_asym.
    + by apply (proj1 (Forall_forall _ _) Hy).
  - constructor; [by constructor|]. constructor; [done|].
    eapply Forall_impl; [exact Hy|]. intros z Hz.
    by apply (sort_key_ge_trans _ (sort_key y)).
Qed.

(** What [get_all_keys] returns, for every store: all stored keys, each
    once, in descending order of [(is_used, created_at)]; so every used key
    stands before every unused key. *)
Lemma get_all_keys_order (s : Storage) :
  get_all_keys s ≡ₚ to_AccessKey <$> map_to_list (keys s)
  ∧ StronglySorted key_ge (get_all_keys s)
  ∧ ∀ l1 a l2, get_all_keys s = (l1 ++ a :: l2)%list →
      is_used a = false → Forall (λ b, is_used b = false) l2.
Proof.
  assert (Hs : StronglySorted key_ge (get_all_keys s)).
  { unfold get_all_keys, sort_reverse.
    induction (to_AccessKey <$> map_to_list (keys s)) as [|x l IH]; simpl;
      [constructor|by apply insert_reverse_sorted]. }
  split; [apply sort_reverse_perm|]. split; [exact Hs|].
  intros l1 a l2 Heq Ha. rewrite Heq in Hs.
  apply StronglySorted_app_1_r, StronglySorted_cons in Hs as [Hs _].
  eapply Forall_impl; [exact Hs|]. intros b Hb.
  unfold key_ge, sort_key_lt, sort_key in Hb. simpl in Hb. rewrite Ha in Hb.
  destruct (is_used b); [done|done].
Qed.

(** C6, evaluated.  With a used key created on 1 December and an unused key
    created on 2 December, [get_all_keys] lists the used key first: the sort
    is by [(is_used, created_at)] with [reverse=True], and [True] is above
    [False].  The listings of [get_unused_keys] and [get_used_keys] are the
    two parts of that list. *)
Theorem get_all_keys_lists_used_first :
  (key <$> get_all_keys two_key_store) = ["BBBB-BBBB-BBBB"; "AAAA-AAAA-AAAA"]
  ∧ (is_used <$> get_all_keys two_key_store) = [true; false]
  ∧ (ak_created_at <$> get_all_keys two_key_store)
      = ["2025-12-01T10:00:00"; "2025-12-02T10:00:00"]
  ∧ (key <$> get_unused_keys two_key_store) = ["AAAA-AAAA-AAAA"]
  ∧ (key <$> get_used_keys two_key_store) = ["BBBB-BBBB-BBBB"].
Proof. repeat split; by vm_compute. Qed.

(** *** Invariants of the store over sequences of calls *)

Lemma run_invariant (P : Storage → Prop) :
  (∀ o s s', P s → apply_op o s = Some s' → P s') →
  ∀ ops s s', P s → run ops s = Some s' → P s'.
Proof.
  intros Hstep ops. induction ops as [|o ops IH]; intros s s' Hs; simpl.
  - by intros [= <-].
  - destruct (apply_op o s) as [s1|] eqn:Ho; [|done]. eauto.
Qed.

Lemma activate_key_cases s tok uid name now :
  activate_key tok uid name now s = (false, s)
  ∨ ∃ kd, keys s !! tok = Some kd ∧ activated_by kd = None
      ∧ users s !! str uid = None
      ∧ activate_key tok uid name now s =
          (true,
           {| admin_id := admin_id s;
              keys := <[tok := {| created_at := created_at kd;
                                  activated_by := Some uid;
                                  activated_by_username := name;
                                  activated_at := Some now |}]> (keys s);
              users := <[str uid := {| user_id := uid; username := name;
                                       key_used := tok;
                                       user_activated_at := now |}]>
                         (users s) |}).
Proof.
  destruct (keys s !! tok) as [kd|] eqn:Hk;
    [|left; by apply activate_key_unknown].
  destruct (activated_by kd) as [u|] eqn:Ha;
    [left; by eapply activate_key_used|].
  destruct (users s !! str uid) as [r|] eqn:Hu;
    [left; apply activate_key_user_known; by rewrite Hu|].
  right. exists kd. repeat split; [done..|]. by apply activate_key_success.
Qed.

Lemma delete_key_keys s k : keys (delete_key k s).2 = delete k (keys s).
Proof.
  unfold delete_key. destruct (keys s !! k) eqn:Hk; simpl; [done|].
  symmetry. by apply delete_id.
Qed.

Lemma delete_key_users s k k' r :
  users (delete_key k s).2 !! k' = Some r → users s !! k' = Some r.
Proof.
  unfold delete_key. destruct (keys s !! k) as [kd|]; simpl; [|done].
  destruct (activated_by_truthy kd); [|done].
  destruct (activated_by kd); [|done].
  by intros [_ ?]%lookup_delete_Some.
Qed.

Lemma step_key_fields o s s' :
  inv_key_fields s → apply_op o s = Some s' → inv_key_fields s'.
Proof.
  intros Hinv. destruct o as [fuel rnd pos now|k uid uname now|k]; simpl.
  - destruct (generate_key fuel rnd pos now s) as [[[tok p] s1]|] eqn:Hg; [|done].
    intros [= <-]. apply generate_key_result in Hg as (_ & _ & Hkeys & _).
    intros t kd. rewrite Hkeys. intros [[_ <-]|[_ ?]]%lookup_insert_Some; [done|eauto].
  - intros [= <-].
    destruct (activate_key_cases s k uid uname now) as [->|(kd0 & _ & _ & _ & ->)];
      [done|].
    intros t kd. simpl. intros [[_ <-]|[_ ?]]%lookup_insert_Some; [done|eauto].
  - intros [= <-] t kd. rewrite delete_key_keys.
    intros [_ ?]%lookup_delete_Some. eauto.
Qed.

Lemma step_user_index o s s' :
  inv_user_index s → apply_op o s = Some s' → inv_user_index s'.
Proof.
  intros Hinv. destruct o as [fuel rnd pos now|k uid uname now|k]; simpl.
  - destruct (generate_key fuel rnd pos now s) as [[[tok p] s1]|] eqn:Hg; [|done].
    intros [= <-]. apply generate_key_result in Hg as (_ & _ & _ & Husers & _).
    intros k r. rewrite Husers. apply Hinv.
  - intros [= <-].
    destruct (activate_key_cases s k uid uname now) as [->|(kd0 & _ & _ & _ & ->)];
      [done|].
    intros k' r. simpl. intros [[<- <-]|[_ ?]]%lookup_insert_Some; [done|eauto].
  - intros [= <-] k' r Hr%delete_key_users. eauto.
Qed.

(** Every call keeps the activator of an activated key that stays stored. *)
Lemma step_activation_kept o s s' :
  apply_op o s = Some s' → activation_kept s s'.
Proof.
  destruct o as [fuel rnd pos now|k uid uname now|k]; simpl.
  - destruct (generate_key fuel rnd pos now s) as [[[tok p] s1]|] eqn:Hg; [|done].
    intros [= <-]. apply generate_key_result in Hg as (_ & Hfresh & Hkeys & _).
    intros t kd kd' u Ht Hu. rewrite Hkeys.
    intros [[<- _]|[_ ?]]%lookup_insert_Some; congruence.
  - intros [= <-].
    destruct (activate_key_cases s k uid uname now) as [->|(kd0 & Hk & Ha & _ & ->)].
    + intros t kd kd' u Ht Hu. simpl. congruence.
    + intros t kd kd' u Ht Hu. simpl.
      intros [[<- _]|[_ ?]]%lookup_insert_Some; congruence.
  - intros [= <-] t kd kd' u Ht Hu. rewrite delete_key_keys.
    intros [_ ?]%lookup_delete_Some. congruence.
Qed.

Lemma user_index_unique s : inv_user_index s → unique_user_id s.
Proof.
  intros Hinv k1 k2 r1 r2 H1 H2 Heq.
  by rewrite (Hinv _ _ H1), (Hinv _ _ H2), Heq.
Qed.

(** The parts of the invariant that hold after every sequence of calls from
    the empty store: the two activation fields of a key are null together,
    there is at most one record for a user id, and no call changes or clears
    the activator of a key that stays stored. *)
Lemma reachable_invariants (admin : Z) (ops : list op) (s : Storage) :
  run ops (empty_storage admin) = Some s →
  inv_key_fields s
  ∧ unique_user_id s
  ∧ ∀ o s', apply_op o s = Some s' → activation_kept s s'.
Proof.
  intros Hrun. split; [|split].
  - eapply (run_invariant inv_key_fields); [apply step_key_fields| |exact Hrun].
    intros t kd. simpl. by rewrite lookup_empty.
  - apply user_index_unique.
    eapply (run_invariant inv_user_index); [apply step_user_index| |exact Hrun].
    intros k r. simpl. by rewrite lookup_empty.
  - intros o s'. apply step_activation_kept.
Qed.


Lemma step_linked o s s' :
  nonzero_op o → linked s → apply_op o s = Some s' → linked s'.
Proof.
  intros Hnz (Hidx & Hkey & Hz) Ho.
  split; [by eapply step_user_index|].
  destruct o as [fuel rnd pos now|k uid uname now|k]; simpl in Ho.
  - destruct (generate_key fuel rnd pos now s) as [[[tok p] s1]|] eqn:Hg; [|done].
    injection Ho as <-.
    apply generate_key_result in Hg as (_ & Hfresh & Hkeys & Husers & _).
    split.
    + intros k r. rewrite Husers, Hkeys. intros (kd & Hkd & Hby)%Hkey.
      exists kd. split; [|done]. rewrite lookup_insert_ne; [done|congruence].
    + intros t kd. rewrite Hkeys.
      intros [[_ <-]|[_ ?]]%lookup_insert_Some; [done|eauto].
  - injection Ho as <-.
    destruct (activate_key_cases s k uid uname now) as [->|(kd0 & Hk & Ha & Hu & ->)];
      [done|]. simpl. split.
    + intros k' r. simpl. intros [[<- <-]|[_ Hr]]%lookup_insert_Some; simpl.
      * eexists. by rewrite lookup_insert_eq.
      * destruct (Hkey _ _ Hr) as (kd & Hkd & Hby).
        exists kd. split; [|done]. rewrite lookup_insert_ne; [done|congruence].
    + intros t kd. simpl.
      intros [[_ <-]|[_ ?]]%lookup_insert_Some; simpl; [|eauto].
      simpl in Hnz. congruence.
  - injection Ho as <-. split.
    + intros k' r Hr.
      pose proof (delete_key_users _ _ _ _ Hr) as Hr0.
      destruct (Hkey _ _ Hr0) as (kd & Hkd & Hby).
      exists kd. split; [|done].
      rewrite delete_key_keys. apply lookup_delete_Some. split; [|done].
      intros ->. revert Hr. unfold delete_key. rewrite Hkd.
      unfold activated_by_truthy. rewrite Hby.
      destruct (Z.eqb_spec (user_id r) 0) as [Hzero|_].
      { exfalso. apply (Hz _ _ Hkd). by rewrite Hby, Hzero. }
      simpl. rewrite (Hidx _ _ Hr0), lookup_delete_eq. done.
    + intros t kd. rewrite delete_key_keys.
      intros [_ ?]%lookup_delete_Some. eauto.
Qed.

Lemma linked_unique_key_used s : linked s → unique_key_used s.
Proof.
  intros (Hidx & Hkey & _) k1 k2 r1 r2 H1 H2 Heq.
  destruct (Hkey _ _ H1) as (kd1 & Hk1 & Hb1).
  destruct (Hkey _ _ H2) as (kd2 & Hk2 & Hb2).
  rewrite (Hidx _ _ H1), (Hidx _ _ H2). f_equal.
  rewrite Heq in Hk1. congruence.
Qed.

Lemma run_linked ops s s' :
  Forall nonzero_op ops → linked s → run ops s = Some s' → linked s'.
Proof.
  intros Hnz. revert s. induction Hnz as [|o ops Ho _ IH]; intros s Hs; simpl.
  - by intros [= <-].
  - destruct (apply_op o s) as [s1|] eqn:Hop; [|done].
    apply IH. by eapply step_linked.
Qed.

(** After a sequence of calls from the empty store in which no key is
    activated for the user id [0], there is at most one record for each
    [key_used]. *)
Lemma reachable_unique_key_used (admin : Z) (ops : list op) (s : Storage) :
  Forall nonzero_op ops →
  run ops (empty_storage admin) = Some s →
  unique_key_used s.
Proof.
  intros Hnz Hrun. apply linked_unique_key_used.
  eapply run_linked; [exact Hnz| |exact Hrun].
  repeat split; intros ? ?; simpl; by rewrite lookup_empty.
Qed.

(** C2, evaluated.  From the empty store: a key is generated, activated by
    the user id [0] and deleted ([delete_key] leaves the record of user [0],
    whose [activated_by] tests false); the same token is generated again and
    activated by user [7].  The store then holds two user records with the
    same [key_used]. *)
Theorem key_used_shared_after_delete :
  ∃ s r0 r7,
    run shared_key_ops (empty_storage 1) = Some s
    ∧ users s !! "0" = Some r0
    ∧ users s !! "7" = Some r7
    ∧ user_id r0 = 0%Z ∧ user_id r7 = 7%Z
    ∧ key_used r0 = "AAAA-AAAA-AAAA"
    ∧ key_used r7 = "AAAA-AAAA-AAAA"
    ∧ ¬ unique_key_used s.
Proof.
  eexists _, _, _. split; [by vm_compute|].
  split; [by vm_compute|]. split; [by vm_compute|].
  repeat (split; [reflexivity|]).
  intros Huniq.
  assert (H : "0" = "7"); [|done].
  eapply Huniq; [by vm_compute|by vm_compute|reflexivity].
Qed.

(* ===================================================================== *)
(** ** Properties of the fetch client *)
(* ===================================================================== *)

Import Client.

Lemma failed_attempts_S a k :
  failed_attempts a (S k) =
    EvGet :: EvSleep (2 ^ Z.of_nat a) :: failed_attempts (S a) k.
Proof. reflexivity. Qed.

Lemma requests_app t1 t2 : requests (t1 ++ t2) = (requests t1 + requests t2)%nat.
Proof. unfold requests. by rewrite List.filter_app, length_app. Qed.

Lemma requests_failed_attempts a k : requests (failed_attempts a k) = k.
Proof.
  revert a. induction k as [|k IH]; intros a; [done|].
  rewrite failed_attempts_S. unfold requests in *. simpl. by rewrite IH.
Qed.

Lemma sleeps_failed_attempts a k :
  sleeps (failed_attempts a k) = map (λ j, 2 ^ Z.of_nat j)%Z (seq a k).
Proof.
  revert a. induction k as [|k IH]; intros a; [done|].
  rewrite failed_attempts_S. unfold sleeps in *. simpl. by rewrite IH.
Qed.

(** The loop from attempt [a] on, when the attempts [a .. a+k-1] end with
    network errors and attempt [a+k] gets a response. *)
Lemma fetch_loop_response n a k M env last st body :
  (k < n)%nat → (Z.of_nat (a + n) <= M)%Z →
  (∀ j, (j < k)%nat → is_Some (net_error_of (env (a + j)%nat))) →
  env (a + k)%nat = GetResponse st body →
  fetch_loop (seq a n) M env last =
    (handle_response st body, (failed_attempts a k ++ [EvGet])%list).
Proof.
  revert a k last. induction n as [|n IH]; intros a k last Hk HM Herr Hresp; [lia|].
  cbn [seq fetch_loop]. destruct k as [|k].
  - replace (a + 0)%nat with a in Hresp by lia. by rewrite Hresp.
  - destruct (Herr 0%nat) as [e He]; [lia|].
    replace (a + 0)%nat with a in He by lia.
    destruct (env a) as [e'|]; [|done]. simpl in He.
    rewrite (IH (S a) k (Some e')); [| lia | lia | | ].
    + rewrite failed_attempts_S.
      destruct (Z.ltb_spec (Z.of_nat a) (M - 1)) as [_|?]; [done|lia].
    + intros j Hj. replace (S a + j)%nat with (a + S j)%nat by lia.
      apply Herr. lia.
    + by replace (S a + k)%nat with (a + S k)%nat by lia.
Qed.

(** The loop from attempt [a] on, when all its attempts end with network
    errors and [a+n] is [max_retries]. *)
Lemma fetch_loop_exhausted n a M env last :
  Z.of_nat (a + S n) = M →
  (∀ j, (j <= n)%nat → is_Some (net_error_of (env (a + j)%nat))) →
  fetch_loop (seq a (S n)) M env last =
    (Raise (AutheduAPIError (MsgExhausted M (net_error_of (env (a + n)%nat))) None),
     (failed_attempts a n ++ [EvGet])%list).
Proof.
  revert a last. induction n as [|n IH]; intros a last HM Herr.
  - cbn [seq fetch_loop]. destruct (Herr 0%nat) as [e He]; [lia|].
    replace (a + 0)%nat with a in * by lia.
    destruct (env a) as [e'|]; [|done]. simpl.
    destruct (Z.ltb_spec (Z.of_nat a) (M - 1)) as [?|_]; [lia|done].
  - remember (S n) as n' eqn:Hn'. cbn [seq fetch_loop].
    destruct (Herr 0%nat) as [e He]; [lia|].
    replace (a + 0)%nat with a in He by lia.
    destruct (env a) as [e'|]; [|done].
    subst n'. rewrite (IH (S a) (Some e')); [|lia|].
    + rewrite failed_attempts_S.
      replace (S a + n)%nat with (a + S n)%nat by lia.
      destruct (Z.ltb_spec (Z.of_nat a) (M - 1)) as [_|?]; [done|lia].
    + intros j Hj. replace (S a + j)%nat with (a + S j)%nat by lia.
      apply Herr. lia.
Qed.

Lemma fetch_loop_requests attempts M env last :
  (requests (fetch_loop attempts M env last).2 <= length attempts)%nat.
Proof.
  revert last. induction attempts as [|a l IH]; intros last; simpl; [done|].
  destruct (env a) as [e|st body]; simpl; [|unfold requests; simpl; lia].
  specialize (IH (Some e)).
  destruct (fetch_loop l M env (Some e)) as [r tr]. simpl in *.
  change (EvGet :: ?x) with ([EvGet] ++ x)%list.
  rewrite !requests_app.
  destruct (Z.of_nat a <? M - 1)%Z; unfold requests at 1 2; simpl; lia.
Qed.

Lemma handle_response_ok st data :
  (st < 400)%Z → handle_response st (Some data) = _parse_homeworks data.
Proof.
  intros Hst. unfold handle_response.
  destruct (Z.eqb_spec st 401); [lia|]. destruct (Z.eqb_spec st 403); [lia|].
  destruct (Z.geb_spec st 400); [lia|done].
Qed.

(** C3.  [fetch_homeworks] makes at most [max_retries] requests.  A response
    ends the call at its attempt: only the attempts that end with a network
    error (a timeout or another request error) are followed by a further
    attempt, after a pause of [2 ^ attempt] seconds.  When all [max_retries]
    attempts end with network errors, the call raises the connection error
    that carries the last of them, after exactly [max_retries] requests and
    the pauses [1, 2, ..., 2 ^ (max_retries - 2)].  A network error on the
    first attempt followed by a successful response gives what the parser
    returns for that response, after one pause of one second; with the
    default of three attempts, three timeouts give three requests and the
    connection error. *)
Theorem fetch_homeworks_retry (max_retries : Z) (env : nat → get_outcome) :
  let N := Z.to_nat max_retries in
  (requests (fetch_homeworks max_retries env).2 <= N)%nat
  ∧ (∀ k st body,
       (k < N)%nat →
       (∀ j, (j < k)%nat → is_Some (net_error_of (env j))) →
       env k = GetResponse st body →
       fetch_homeworks max_retries env = (handle_response st body, retry_trace k)
       ∧ requests (retry_trace k) = S k
       ∧ sleeps (retry_trace k) = map (λ j, 2 ^ Z.of_nat j)%Z (seq 0 k))
  ∧ (∀ n,
       N = S n →
       (∀ j, (j <= n)%nat → is_Some (net_error_of (env j))) →
       ∃ e, net_error_of (env n) = Some e
         ∧ fetch_homeworks max_retries env =
             (Raise (AutheduAPIError (MsgExhausted max_retries (Some e)) None),
              retry_trace n)
         ∧ requests (retry_trace n) = N
         ∧ sleeps (retry_trace n) = map (λ j, 2 ^ Z.of_nat j)%Z (seq 0 n))
  ∧ (∀ e st data,
       (2 <= max_retries)%Z →
       env 0%nat = GetRaises e →
       env 1%nat = GetResponse st (Some data) →
       (st < 400)%Z →
       fetch_homeworks max_retries env =
         (_parse_homeworks data, [EvGet; EvSleep 1; EvGet]))
  ∧ fetch_homeworks default_max_retries always_timeout =
      (Raise (AutheduAPIError (MsgExhausted 3 (Some TimeoutException)) None),
       [EvGet; EvSleep 1; EvGet; EvSleep 2; EvGet]).
Proof.
  intros N.
  assert (Hreq : ∀ k, requests (retry_trace k) = S k).
  { intros k. unfold retry_trace.
    rewrite requests_app, requests_failed_attempts. unfold requests. simpl. lia. }
  assert (Hsl : ∀ k, sleeps (retry_trace k) = map (λ j, 2 ^ Z.of_nat j)%Z (seq 0 k)).
  { intros k. unfold retry_trace, sleeps.
    rewrite omap_app. fold (sleeps (failed_attempts 0 k)).
    rewrite sleeps_failed_attempts. simpl. by rewrite app_nil_r. }
  assert (Hresp : ∀ k st body,
       (k < N)%nat →
       (∀ j, (j < k)%nat → is_Some (net_error_of (env j))) →
       env k = GetResponse st body →
       fetch_homeworks max_retries env = (handle_response st body, retry_trace k)).
  { intros k st body Hk Herr Hk'. unfold fetch_homeworks, retry_trace.
    apply fetch_loop_response; [exact Hk|subst N; lia|exact Herr|exact Hk']. }
  split; [|split; [|split; [|split]]].
  - unfold fetch_homeworks.
    etrans; [apply fetch_loop_requests|]. by rewrite length_seq.
  - intros k st body Hk Herr Hk'. split; [by apply Hresp|]. split; [apply Hreq|apply Hsl].
  - intros n HN Herr.
    destruct (Herr n) as [e He]; [lia|]. exists e. split; [exact He|].
    split; [|split; [rewrite Hreq; lia|apply Hsl]].
    unfold fetch_homeworks, retry_trace. fold N. rewrite HN.
    rewrite (fetch_loop_exhausted n 0 max_retries env None); [|subst N; lia|exact Herr].
    simpl. by rewrite He.
  - intros e st data HM H0 H1 Hst.
    rewrite (Hresp 1%nat st (Some data)); [| subst N; lia | | exact H1].
    + by rewrite handle_response_ok.
    + intros j Hj. replace j with 0%nat by lia. rewrite H0. simpl. eauto.
  - reflexivity.
Qed.

Lemma fetch_homeworks_retry_witness :
  fetch_homeworks 3 (timeout_then 200 (Some sample_payload)) =
    (Ok [sample_item], [EvGet; EvSleep 1; EvGet])
  ∧ ∃ e, fetch_homeworks 3 always_timeout =
           (Raise (AutheduAPIError (MsgExhausted 3 (Some e)) None), retry_trace 2).
Proof.
  split.
  - destruct (fetch_homeworks_retry 3 (timeout_then 200 (Some sample_payload)))
      as (_ & _ & _ & H & _).
    rewrite (H TimeoutException 200%Z sample_payload); [reflexivity|lia|reflexivity|reflexivity|lia].
  - destruct (fetch_homeworks_retry 3 always_timeout) as (_ & _ & H & _).
    destruct (H 2%nat) as (e & _ & Hf & _); [reflexivity|intros; simpl; eauto|].
    exists e. exact Hf.
Defined.

(** C5.  A response with a status of 400 or more ends [fetch_homeworks] at its
    attempt with an [AutheduAPIError] that carries the status: no request
    follows it.  The error is the expired-credential error for 401, the
    access-forbidden error for 403 and the error naming the HTTP status for
    every other status. *)
Theorem fetch_homeworks_http_error (max_retries : Z) (env : nat → get_outcome)
    (k : nat) (st : Z) (body : option pyval) :
  (k < Z.to_nat max_retries)%nat →
  (∀ j, (j < k)%nat → is_Some (net_error_of (env j))) →
  env k = GetResponse st body →
  (400 <= st)%Z →
  ∃ msg,
    fetch_homeworks max_retries env =
      (Raise (AutheduAPIError msg (Some st)), retry_trace k)
    ∧ requests (retry_trace k) = S k
    ∧ last (retry_trace k) = Some EvGet
    ∧ (k = 0%nat → retry_trace k = [EvGet])
    ∧ (st = 401%Z → msg = MsgTokenExpired)
    ∧ (st = 403%Z → msg = MsgForbidden)
    ∧ (st ≠ 401%Z → st ≠ 403%Z → msg = MsgHTTP st).
Proof.
  intros Hk Herr Hresp Hst.
  assert (Hf : fetch_homeworks max_retries env = (handle_response st body, retry_trace k)).
  { unfold fetch_homeworks, retry_trace.
    apply fetch_loop_response; [exact Hk|lia|exact Herr|exact Hresp]. }
  assert (Hreq : requests (retry_trace k) = S k).
  { unfold retry_trace.
    rewrite requests_app, requests_failed_attempts. unfold requests. simpl. lia. }
  assert (Hlast : last (retry_trace k) = Some EvGet).
  { unfold retry_trace. apply last_snoc. }
  assert (H0 : k = 0%nat → retry_trace k = [EvGet]) by by intros ->.
  rewrite Hf. unfold handle_response.
  destruct (Z.eqb_spec st 401) as [->|H401].
  { exists MsgTokenExpired. repeat split; try done. }
  destruct (Z.eqb_spec st 403) as [->|H403].
  { exists MsgForbidden. repeat split; try done. }
  destruct (Z.geb_spec st 400) as [_|?]; [|lia].
  exists (MsgHTTP st). repeat split; try done.
Qed.

Lemma fetch_homeworks_http_error_witness :
  fetch_homeworks 3 (λ _, GetResponse 401 None) =
    (Raise (AutheduAPIError MsgTokenExpired (Some 401%Z)), [EvGet])
  ∧ fetch_homeworks 3 (timeout_then 503 None) =
    (Raise (AutheduAPIError (MsgHTTP 503) (Some 503%Z)), [EvGet; EvSleep 1; EvGet]).
Proof.
  split.
  - destruct (fetch_homeworks_http_error 3 (λ _, GetResponse 401 None) 0 401 None)
      as (msg & Hf & _ & _ & _ & H401 & _);
      [ simpl; lia | intros; lia | reflexivity | lia | ].
    rewrite Hf, (H401 eq_refl). reflexivity.
  - destruct (fetch_homeworks_http_error 3 (timeout_then 503 None) 1 503 None)
      as (msg & Hf & _ & _ & _ & _ & _ & Hgen);
      [ simpl; lia | | reflexivity | lia | ].
    + intros j Hj. replace j with 0%nat by lia. simpl. eauto.
    + rewrite Hf, Hgen by lia. reflexivity.
Defined.

(** *** [_parse_homeworks] *)

(** A top-level value that is neither a list nor a dictionary gives the empty
    result. *)
Lemma parse_homeworks_scalar data :
  (∀ l, data ≠ PList l) → (∀ d, data ≠ PDict d) → _parse_homeworks data = Ok [].
Proof. intros Hl Hd. destruct data; try done; [by destruct (Hl l)|by destruct (Hd d)]. Qed.

(** A dictionary that wraps no list under ["payload"], ["response"] or
    ["data"] gives the empty result. *)
Lemma parse_homeworks_no_list d :
  (∀ l, unwrap d ≠ PList l) ∨ unwrap d = PList [] → _parse_homeworks (PDict d) = Ok [].
Proof.
  unfold _parse_homeworks. fold (unwrap d).
  intros [H| ->]; [|done]. destruct (unwrap d); try done. by destruct (H l).
Qed.

(** An element that is not a dictionary contributes nothing. *)
Lemma parse_element_not_dict hw :
  (∀ h, hw ≠ PDict h) → parse_element hw = Ok None.
Proof. intros H. destruct hw; try done. by destruct (H d). Qed.

(** An element whose text is empty after [strip] contributes nothing. *)
Lemma parse_element_empty_text h :
  text_is_empty (element_text h) = true → parse_element (PDict h) = Ok None.
Proof. intros H. unfold parse_element. fold (element_text h). by rewrite H. Qed.

(** An element whose ["date"] is a string that is not a calendar date
    contributes nothing. *)
Lemma parse_element_bad_date_string h s :
  get_default h "date" (PStr "") = PStr s → parse_iso_date s = None →
  parse_element (PDict h) = Ok None.
Proof.
  intros Hd Hs. unfold parse_element. fold (element_text h).
  destruct (text_is_empty (element_text h)); [done|].
  rewrite Hd. simpl. by rewrite Hs.
Qed.

(** An element whose ["date"] is not a string, and whose text is not empty,
    raises [TypeError]. *)
Lemma parse_element_date_not_string h v :
  text_is_empty (element_text h) = false →
  get_default h "date" (PStr "") = v → (∀ s, v ≠ PStr s) →
  parse_element (PDict h) = Raise TypeError.
Proof.
  intros Ht Hd Hv. unfold parse_element. fold (element_text h).
  rewrite Ht, Hd. destruct v; try done. by destruct (Hv s).
Qed.

(** Elements that contribute nothing do not change the result of their
    siblings. *)
Lemma parse_elements_dropped l1 hw l2 :
  parse_element hw = Ok None →
  parse_elements (l1 ++ hw :: l2) = parse_elements (l1 ++ l2).
Proof.
  intros H. induction l1 as [|x l1 IH]; simpl.
  - rewrite H. simpl. by destruct (parse_elements l2).
  - by rewrite IH.
Qed.

(** An element that raises makes the whole parse raise, whatever its
    siblings are. *)
Lemma parse_homeworks_element_raises l1 hw l2 e :
  parse_element hw = Raise e →
  ∃ e', _parse_homeworks (PList (l1 ++ hw :: l2)) = Raise e'.
Proof.
  intros H. unfold _parse_homeworks.
  assert (∃ e', parse_elements (l1 ++ hw :: l2) = Raise e') as [e' ->]; [|by eexists].
  induction l1 as [|x l1 [e' IH]]; simpl.
  - rewrite H. by eexists.
  - rewrite IH. destruct (parse_element x); by eexists.
Qed.

(** C4, evaluated.  The parser returns the item of a well-formed element and
    drops, beside it, an element that is not a dictionary, one without text
    and one whose date string names no day.  But beside the same well-formed
    element, an element whose ["date"] is [null] makes the call raise
    [TypeError] ([date.fromisoformat] raises it for a value that is not a
    string, and only [ValueError] is caught); so does an element whose
    ["materials"] is a number (the [for] loop over it), and an element with
    a [null] subject on the same day (the comparison of the sort keys). *)
Theorem parse_homeworks_raises_type_error :
  _parse_homeworks (PList [good_element]) = Ok [sample_item]
  ∧ _parse_homeworks
      (PList [PInt 3;
              PDict [("homework", PStr "   "); ("date", PStr "2025-12-15")];
              PDict [("homework", PStr "x"); ("date", PStr "2025-02-30")];
              good_element]) = Ok [sample_item]
  ∧ _parse_homeworks (PList [null_date_element; good_element]) = Raise TypeError
  ∧ _parse_homeworks (PList [good_element; null_date_element]) = Raise TypeError
  ∧ _parse_homeworks (PList [good_element; number_materials_element]) = Raise TypeError
  ∧ _parse_homeworks (PList [good_element; null_subject_element]) = Raise TypeError
  ∧ fetch_homeworks 3 (λ _, GetResponse 200 (Some (PList [null_date_element; good_element])))
      = (Raise TypeError, [EvGet]).
Proof. repeat split; by vm_compute. Qed.

(* ===================================================================== *)
(** ** Further properties of the store *)
(* ===================================================================== *)

Import Terms.

Lemma apply_op_admin_id o s s' : apply_op o s = Some s' → admin_id s' = admin_id s.
Proof.
  destruct o as [fuel rnd pos now|k uid uname now|k]; simpl.
  - destruct (generate_key fuel rnd pos now s) as [[[tok p] s1]|] eqn:Hg; [|done].
    intros [= <-]. by apply generate_key_result in Hg as (_ & _ & _ & _ & ?).
  - intros [= <-].
    by destruct (activate_key_cases s k uid uname now) as [->|(kd0 & _ & _ & _ & ->)].
  - intros [= <-]. unfold delete_key. by destruct (keys s !! k).
Qed.

(** X1.  No call of the store changes the super-user: after every sequence
    of [generate_key], [activate_key] and [delete_key], from any store, the
    configured id is the same, it is the only id [is_admin] accepts, and
    [is_authorized] is true for it whatever the records are. *)
Theorem super_user_kept (ops : list op) (s s' : Storage) :
  run ops s = Some s' →
  admin_id s' = admin_id s
  ∧ is_authorized (admin_id s) s' = true
  ∧ ∀ uid, is_admin uid s' = true ↔ uid = admin_id s.
Proof.
  intros Hrun.
  assert (Hadm : admin_id s' = admin_id s).
  { revert s Hrun. induction ops as [|o ops IH]; intros s; simpl.
    - by intros [= <-].
    - destruct (apply_op o s) as [s1|] eqn:Ho; [|done].
      intros H. rewrite (IH _ H). by eapply apply_op_admin_id. }
  split; [done|]. split.
  - unfold is_authorized. by rewrite Hadm, Z.eqb_refl.
  - intros uid. unfold is_admin. rewrite Hadm. apply Z.eqb_eq.
Qed.

Lemma super_user_kept_witness :
  ∃ s', run shared_key_ops (empty_storage 1) = Some s'
        ∧ admin_id s' = 1%Z ∧ is_authorized 1 s' = true.
Proof.
  eexists. split; [by vm_compute|].
  match goal with
  | |- admin_id ?s' = _ ∧ _ =>
      destruct (super_user_kept shared_key_ops (empty_storage 1) s')
        as (Hadm & Hauth & _); [by vm_compute|]
  end.
  split; [exact Hadm|exact Hauth].
Defined.

Lemma str_inj a b : str a = str b → a = b.
Proof. unfold str. apply (inj pretty). Qed.

(** X2.  A successful activation authorizes the activating user and nobody
    else: [is_authorized] becomes true for that user id and keeps its value
    for every other id, and the number of users grows by one. *)
Theorem activation_authorizes_one_user (s s' : Storage) (tok : string)
    (uid : Z) (name : option string) (now : string) :
  activate_key tok uid name now s = (true, s') →
  is_authorized uid s = (uid =? admin_id s)%Z
  ∧ is_authorized uid s' = true
  ∧ (∀ uid', uid' ≠ uid → is_authorized uid' s' = is_authorized uid' s)
  ∧ get_user_count s' = S (get_user_count s).
Proof.
  intros Hact.
  destruct (activate_key_cases s tok uid name now) as [Hf|(kd & Hk & Ha & Hu & Hs)];
    [congruence|].
  rewrite Hs in Hact. injection Hact as <-.
  unfold is_authorized, get_user_count. simpl. repeat split.
  - destruct (uid =? admin_id s)%Z; [done|].
    apply bool_decide_eq_false. rewrite Hu. by intros [? ?].
  - destruct (uid =? admin_id s)%Z; [done|].
    apply bool_decide_eq_true. rewrite lookup_insert_eq. eauto.
  - intros uid' Hne. destruct (uid' =? admin_id s)%Z; [done|].
    rewrite lookup_insert_ne; [done|]. intros Heq. by apply str_inj in Heq.
  - by apply map_size_insert_None.
Qed.

Lemma activation_authorizes_one_user_witness :
  ∃ s', activate_key "ABCD-EFGH-IJKL" 7 (Some "@ann") "2025-12-02T09:00:00" one_key_store
          = (true, s')
    ∧ is_authorized 7 s' = true ∧ is_authorized 8 s' = false.
Proof.
  exists (activate_key "ABCD-EFGH-IJKL" 7 (Some "@ann") "2025-12-02T09:00:00"
            one_key_store).2.
  split; [by vm_compute|].
  destruct (activation_authorizes_one_user one_key_store
              (activate_key "ABCD-EFGH-IJKL" 7 (Some "@ann") "2025-12-02T09:00:00"
                 one_key_store).2
              "ABCD-EFGH-IJKL" 7 (Some "@ann") "2025-12-02T09:00:00")
    as (_ & H7 & H8 & _); [by vm_compute|].
  split; [exact H7|]. rewrite (H8 8%Z); [by vm_compute|lia].
Defined.

(** X3.  Deleting a key right after generating it gives back the store as it
    was before: [delete_key] returns true and the store is the one
    [generate_key] started from. *)
Theorem generate_then_delete (fuel : nat) (rnd : nat → nat) (pos pos' : nat)
    (now tok : string) (s s' : Storage) :
  generate_key fuel rnd pos now s = Some (tok, pos', s') →
  delete_key tok s' = (true, s).
Proof.
  intros Hg. pose proof Hg as Hg'. unfold generate_key in Hg'.
  destruct (generate_loop fuel rnd pos (keys s)) as [[k p]|]; [|done].
  injection Hg' as <- <- <-.
  apply generate_key_result in Hg as (_ & Hfresh & _).
  unfold delete_key. simpl. rewrite lookup_insert_eq. simpl.
  rewrite delete_insert_id by done. by destruct s.
Qed.

Lemma generate_then_delete_witness :
  ∃ tok pos' s',
    generate_key 2 (λ i, i) 0 "2025-12-01T10:00:00" one_key_store = Some (tok, pos', s')
    ∧ delete_key tok s' = (true, one_key_store).
Proof.
  pose proof (generate_then_delete 2 (λ i, i) 0 24 "2025-12-01T10:00:00"
                "MNOP-QRST-UVWX" one_key_store) as H.
  eexists _, _, _. split; [by vm_compute|]. apply H. by vm_compute.
Defined.

(** X4.  After [delete_key], whatever it returned, the token is unknown: a
    second [delete_key] and every [activate_key] with it return false and
    change nothing; every other key is stored as before, and no user record
    is added or changed. *)
Theorem delete_key_forgets_token (s : Storage) (tok : string) :
  let s' := (delete_key tok s).2 in
  keys s' !! tok = None
  ∧ delete_key tok s' = (false, s')
  ∧ (∀ uid name now, activate_key tok uid name now s' = (false, s'))
  ∧ (∀ t, t ≠ tok → keys s' !! t = keys s !! t)
  ∧ (∀ k r, users s' !! k = Some r → users s !! k = Some r)
  ∧ ((delete_key tok s).1 = true ↔ is_Some (keys s !! tok)).
Proof.
  intros s'. subst s'.
  assert (Hgone : keys (delete_key tok s).2 !! tok = None).
  { rewrite delete_key_keys. apply lookup_delete_eq. }
  split; [done|]. split; [by apply delete_key_unknown|].
  split; [intros; by apply activate_key_unknown|].
  split; [intros t Ht; rewrite delete_key_keys; by apply lookup_delete_ne|].
  split; [intros k r; apply delete_key_users|].
  unfold delete_key. destruct (keys s !! tok); simpl; split; eauto; try done.
Qed.

(** *** The listings *)

Lemma filter_strongly_sorted {A} (R R' : A → A → Prop) (f : A → bool) l :
  (∀ a b, f a = true → f b = true → R a b → R' a b) →
  StronglySorted R l → StronglySorted R' (List.filter f l).
Proof.
  intros HR. induction 1 as [|x l Hl IH Hx]; simpl; [constructor|].
  destruct (f x) eqn:Hfx; [|done]. constructor; [done|].
  apply Forall_forall. intros y Hy.
  apply list_elem_of_In, filter_In in Hy as [Hy Hfy].
  apply HR; [done..|]. by apply (proj1 (Forall_forall _ _) Hx), list_elem_of_In.
Qed.

Lemma filter_split_length {A} (f : A → bool) l :
  (length (List.filter (λ x, negb (f x)) l) + length (List.filter f l))%nat = length l.
Proof. induction l as [|x l IH]; simpl; [done|]. destruct (f x); simpl; lia. Qed.

Lemma filter_perm_length {A} (f : A → bool) l1 l2 :
  l1 ≡ₚ l2 → length (List.filter f l1) = length (List.filter f l2).
Proof.
  induction 1 as [|x l1 l2 _ IH|x y l|l1 l2 l3 _ IH1 _ IH2]; simpl.
  - done.
  - destruct (f x); simpl; by rewrite IH.
  - by destruct (f x), (f y).
  - by rewrite IH1.
Qed.

Lemma elem_of_get_all_keys s k : k ∈ get_all_keys s ↔ listed s k.
Proof.
  rewrite (proj1 (get_all_keys_order s)). rewrite list_elem_of_fmap. split.
  - intros ([tok kd] & -> & Hin%elem_of_map_to_list). by exists kd.
  - intros (kd & Hk & Hkd). exists (key k, kd). split; [done|].
    by apply elem_of_map_to_list.
Qed.

Lemma key_ge_same_part a b :
  is_used a = is_used b → key_ge a b → newer_or_same a b.
Proof.
  unfold key_ge, newer_or_same, sort_key_lt, sort_key. simpl.
  intros ->. by rewrite eqb_reflx.
Qed.

(** X5.  [get_unused_keys] returns exactly the stored keys whose
    [activated_by] is null and [get_used_keys] exactly the others, each with
    its stored fields, each list from the newest creation time to the
    oldest; together they hold every stored key once. *)
Theorem key_listings (s : Storage) :
  (∀ k, k ∈ get_unused_keys s ↔ listed s k ∧ ak_activated_by k = None)
  ∧ (∀ k, k ∈ get_used_keys s ↔ listed s k ∧ is_Some (ak_activated_by k))
  ∧ StronglySorted newer_or_same (get_unused_keys s)
  ∧ StronglySorted newer_or_same (get_used_keys s)
  ∧ (length (get_unused_keys s) + length (get_used_keys s))%nat = size (keys s)
  ∧ NoDup (key <$> get_all_keys s).
Proof.
  destruct (get_all_keys_order s) as (Hperm & Hsorted & _).
  split; [|split; [|split; [|split; [|split]]]].
  - intros k. unfold get_unused_keys.
    rewrite list_elem_of_In, filter_In, <- list_elem_of_In, elem_of_get_all_keys.
    unfold is_used. destruct (ak_activated_by k).
    + split; [intros [? ?]; done|intros [? ?]; done].
    + split; intros [? _]; split; eauto.
  - intros k. unfold get_used_keys.
    rewrite list_elem_of_In, filter_In, <- list_elem_of_In, elem_of_get_all_keys.
    unfold is_used. destruct (ak_activated_by k).
    + split; intros [? _]; split; eauto.
    + split; [intros [? ?]; done|intros [? [? ?]]; done].
  - eapply filter_strongly_sorted; [|exact Hsorted].
    intros a b Ha Hb. apply key_ge_same_part.
    by destruct (is_used a), (is_used b).
  - eapply filter_strongly_sorted; [|exact Hsorted].
    intros a b Ha Hb. apply key_ge_same_part. by rewrite Ha, Hb.
  - unfold get_unused_keys, get_used_keys. rewrite filter_split_length.
    by rewrite Hperm, length_fmap, length_map_to_list.
  - rewrite Hperm, <- list_fmap_compose.
    apply (NoDup_fst_map_to_list (keys s)).
Qed.

(** *** The counters of the admin panel *)

Lemma used_count_map (m : gmap string KeyData) :
  length (List.filter is_used (to_AccessKey <$> map_to_list m))
  = size (filter (λ kv : string * KeyData, is_Some (activated_by kv.2)) m).
Proof.
  induction m as [|tok kd m Hm IH] using map_ind.
  - by rewrite map_to_list_empty, map_filter_empty, map_size_empty.
  - rewrite (filter_perm_length _ _ (to_AccessKey <$> ((tok, kd) :: map_to_list m)));
      [|by rewrite map_to_list_insert].
    cbn [fmap list_fmap List.filter]. unfold is_used at 1. simpl.
    destruct (activated_by kd) as [u|] eqn:Hu; simpl.
    + rewrite map_filter_insert_True by (simpl; rewrite Hu; eauto).
      rewrite map_size_insert_None; [by rewrite <- IH|].
      apply map_lookup_filter_None. by left.
    + rewrite map_filter_insert_False by (simpl; rewrite Hu; by intros [? ?]).
      by rewrite delete_id.
Qed.

Lemma used_count_listing s : length (get_used_keys s) = used_count s.
Proof.
  unfold get_used_keys, used_count.
  rewrite (filter_perm_length _ _ _ (proj1 (get_all_keys_order s))).
  apply used_count_map.
Qed.

Lemma unused_not_counted (m : gmap string KeyData) tok :
  (∀ kd, m !! tok = Some kd → activated_by kd = None) →
  filter (λ kv : string * KeyData, is_Some (activated_by kv.2)) m !! tok = None.
Proof.
  intros H. apply map_lookup_filter_None. right. intros kd Hkd. simpl.
  rewrite (H _ Hkd). by intros [? ?].
Qed.

Lemma step_balanced o s s' :
  nonzero_op o → balanced s → apply_op o s = Some s' → balanced s'.
Proof.
  intros Hnz (Hlinked & Hku & Hcount) Ho.
  split; [by eapply step_linked|].
  destruct Hlinked as (Hidx & Huk & Hz).
  unfold get_user_count, used_count in *.
  destruct o as [fuel rnd pos now|k uid uname now|k]; simpl in Ho.
  - destruct (generate_key fuel rnd pos now s) as [[[tok p] s1]|] eqn:Hg; [|done].
    injection Ho as <-.
    apply generate_key_result in Hg as (_ & Hfresh & Hkeys & Husers & _).
    rewrite Hkeys, Husers. split.
    + intros t kd u. rewrite Hkeys, Husers.
      intros [[_ <-]|[_ Ht]]%lookup_insert_Some; [done|]. by apply Hku.
    + rewrite map_filter_insert_False by (simpl; by intros [? ?]).
      by rewrite delete_id.
  - injection Ho as <-.
    destruct (activate_key_cases s k uid uname now) as [->|(kd0 & Hk & Ha & Hu & ->)];
      [done|]. simpl. split.
    + intros t kd u. simpl.
      intros [[<- <-]|[_ Ht]]%lookup_insert_Some; simpl.
      * intros [= <-]. eexists. by rewrite lookup_insert_eq.
      * intros Hby. destruct (Hku _ _ _ Ht Hby) as (r & Hr & Hrk).
        exists r. split; [|done]. rewrite lookup_insert_ne; [done|congruence].
    + rewrite map_size_insert_None by done.
      rewrite map_filter_insert_True by (simpl; eauto).
      rewrite map_size_insert_None; [by f_equal|].
      apply unused_not_counted. congruence.
  - injection Ho as <-. unfold delete_key.
    destruct (keys s !! k) as [kd|] eqn:Hk; simpl; [|done].
    unfold activated_by_truthy.
    destruct (activated_by kd) as [u|] eqn:Hby.
    + destruct (Z.eqb_spec u 0) as [->|Hu0]; [by destruct (Hz _ _ Hk)|]. simpl.
      destruct (Hku _ _ _ Hk Hby) as (r0 & Hr0 & Hr0k). split.
      * intros t kd' u'. simpl. intros [Hne Ht]%lookup_delete_Some Hby'.
        destruct (Hku _ _ _ Ht Hby') as (r & Hr & Hrk).
        exists r. split; [|done]. apply lookup_delete_Some. split; [|done].
        intros Heq. rewrite <- Heq in Hr. congruence.
      * rewrite map_size_delete_Some by eauto.
        rewrite map_filter_delete, map_size_delete_Some; [by f_equal|].
        exists kd. apply map_lookup_filter_Some. simpl. rewrite Hby. eauto.
    + simpl. split.
      * intros t kd' u'. simpl. intros [Hne Ht]%lookup_delete_Some Hby'.
        by eapply Hku.
      * rewrite map_filter_delete, delete_id; [done|].
        apply unused_not_counted. congruence.
Qed.

(** X6.  The counters of the admin panel agree: after every sequence of
    calls from the empty store in which no key is activated for the user id
    [0], the number of users is the number of used keys, and every used key
    has the record of its activator. *)
Theorem users_match_used_keys (admin : Z) (ops : list op) (s : Storage) :
  Forall nonzero_op ops →
  run ops (empty_storage admin) = Some s →
  get_user_count s = length (get_used_keys s)
  ∧ (length (get_unused_keys s) + get_user_count s)%nat = size (keys s)
  ∧ inv_key_user s.
Proof.
  intros Hnz Hrun.
  assert (Hb : balanced s).
  { assert (H0 : balanced (empty_storage admin)).
    { split; [|split].
      - repeat split; intros ? ?; simpl; by rewrite lookup_empty.
      - intros ? ? ?. simpl. by rewrite lookup_empty.
      - unfold get_user_count, used_count. simpl.
        by rewrite map_filter_empty, !map_size_empty. }
    clear -Hnz Hrun H0. revert Hrun H0. generalize (empty_storage admin).
    induction Hnz as [|o ops Ho _ IH]; intros s0; simpl.
    - by intros [= <-].
    - destruct (apply_op o s0) as [s1|] eqn:Hop; [|done].
      intros Hrun H0. apply (IH s1 Hrun). by eapply step_balanced. }
  destruct Hb as (_ & Hku & Hcount).
  rewrite used_count_listing. split; [done|]. split; [|done].
  rewrite Hcount, <- used_count_listing.
  apply (proj1 (proj2 (proj2 (proj2 (proj2 (key_listings s)))))).
Qed.

Lemma users_match_used_keys_witness :
  ∃ s, run (drop 3 shared_key_ops) (empty_storage 1) = Some s
    ∧ get_user_count s = 1%nat ∧ length (get_used_keys s) = 1%nat.
Proof.
  eexists. split; [by vm_compute|].
  match goal with
  | |- get_user_count ?s = _ ∧ _ =>
      destruct (users_match_used_keys 1 (drop 3 shared_key_ops) s) as (H & _ & _);
        [repeat constructor; simpl; lia|by vm_compute|]
  end.
  split; [by vm_compute|]. rewrite <- H. by vm_compute.
Defined.

(** X7.  A key moves from one listing to the other: right after
    [generate_key] the new key stands in [get_unused_keys] with its creation
    time; after its activation it stands in [get_used_keys] with the
    activator, the stored name and the activation time, and no key with that
    token is left in [get_unused_keys]. *)
Theorem key_moves_between_listings (fuel : nat) (rnd : nat → nat)
    (pos pos' : nat) (now now2 tok : string) (uid : Z) (name : option string)
    (s s1 s2 : Storage) :
  generate_key fuel rnd pos now s = Some (tok, pos', s1) →
  activate_key tok uid name now2 s1 = (true, s2) →
  {| key := tok; ak_created_at := now; ak_activated_by := None;
     ak_activated_by_username := None; ak_activated_at := None |}
    ∈ get_unused_keys s1
  ∧ {| key := tok; ak_created_at := now; ak_activated_by := Some uid;
       ak_activated_by_username := name; ak_activated_at := Some now2 |}
    ∈ get_used_keys s2
  ∧ ∀ k, k ∈ get_unused_keys s2 → key k ≠ tok.
Proof.
  intros Hg Hact.
  apply generate_key_result in Hg as (_ & Hfresh & Hkeys & _).
  assert (Hk1 : keys s1 !! tok = Some (fresh_key_data now))
    by by rewrite Hkeys, lookup_insert_eq.
  destruct (activate_key_cases s1 tok uid name now2) as [Hf|(kd & Hk & Ha & Hu & Hs)];
    [congruence|].
  rewrite Hs in Hact. injection Hact as <-.
  assert (kd = fresh_key_data now) as -> by congruence.
  destruct (key_listings s1) as (Hun1 & _).
  split; [|split].
  - apply Hun1. split; [|done]. by exists (fresh_key_data now).
  - apply (proj1 (proj2 (key_listings _))). split; [|simpl; eauto].
    eexists. simpl. by rewrite lookup_insert_eq.
  - intros k [(kd' & Hk' & Hkd') Hnone]%(proj1 (key_listings _)) Heq.
    simpl in Hk'. rewrite Heq, lookup_insert_eq in Hk'. injection Hk' as <-.
    rewrite Hkd' in Hnone. done.
Qed.

Lemma key_moves_between_listings_witness :
  ∃ s1 s2,
    generate_key 1 (λ _, 0%nat) 0 "2025-12-01T10:00:00" (empty_storage 1)
      = Some ("AAAA-AAAA-AAAA", 12%nat, s1)
    ∧ activate_key "AAAA-AAAA-AAAA" 7 (Some "@ann") "2025-12-02T09:00:00" s1 = (true, s2)
    ∧ {| key := "AAAA-AAAA-AAAA"; ak_created_at := "2025-12-01T10:00:00";
         ak_activated_by := Some 7%Z; ak_activated_by_username := Some "@ann";
         ak_activated_at := Some "2025-12-02T09:00:00" |} ∈ get_used_keys s2.
Proof.
  set (s1 := {| admin_id := 1;
                keys := <[ "AAAA-AAAA-AAAA" := fresh_key_data "2025-12-01T10:00:00" ]> ∅;
                users := ∅ |}).
  set (s2 := (activate_key "AAAA-AAAA-AAAA" 7 (Some "@ann") "2025-12-02T09:00:00" s1).2).
  assert (H1 : generate_key 1 (λ _, 0%nat) 0 "2025-12-01T10:00:00" (empty_storage 1)
               = Some ("AAAA-AAAA-AAAA", 12%nat, s1)) by by vm_compute.
  assert (H2 : activate_key "AAAA-AAAA-AAAA" 7 (Some "@ann") "2025-12-02T09:00:00" s1
               = (true, s2)) by by vm_compute.
  exists s1, s2. split; [exact H1|]. split; [exact H2|].
  exact (proj1 (proj2 (key_moves_between_listings _ _ _ _ _ _ _ _ _ _ _ _ H1 H2))).
Defined.

(* ===================================================================== *)
(** ** Further properties of the handlers *)
(* ===================================================================== *)

Import Bot.

Lemma bytes_of_app a b : bytes_of (a ++ b) = (bytes_of a ++ bytes_of b)%list.
Proof.
  unfold bytes_of. induction a as [|c a IH]; [done|].
  cbn [String.append]. change (String c a +:+ b) with (String c (a +:+ b)).
  cbn [list_ascii_of_string map app]. by f_equal.
Qed.

Lemma length_bytes_of s : length (bytes_of s) = String.length s.
Proof.
  unfold bytes_of. rewrite length_map.
  induction s as [|c s IH]; simpl; [done|by rewrite IH].
Qed.

Lemma forallb_rev {A} (f : A → bool) l : forallb f (rev l) = forallb f l.
Proof.
  induction l as [|x l IH]; simpl; [done|].
  rewrite forallb_app, IH. simpl. rewrite andb_true_r. apply andb_comm.
Qed.

Lemma drop_one_space b l :
  ascii_space b = true →
  drop_one whitespace (b :: l) = Some l
  ∧ drop_one (map (@rev nat) whitespace) (b :: l) = Some l.
Proof.
  intros Hb.
  do 33 (destruct b as [|b]; [by (discriminate || (split; reflexivity))|]).
  unfold ascii_space in Hb. simpl in Hb. done.
Qed.

Lemma lstrip_blank ws fuel pad rest :
  (∀ b l, ascii_space b = true → drop_one ws (b :: l) = Some l) →
  forallb ascii_space pad = true → (length pad <= fuel)%nat →
  lstrip_bytes fuel ws (pad ++ rest) = lstrip_bytes (fuel - length pad) ws rest.
Proof.
  intros Hws. revert fuel. induction pad as [|b pad IH]; intros fuel Hpad Hfuel.
  - simpl. by rewrite Nat.sub_0_r.
  - simpl in Hpad. apply andb_true_iff in Hpad as [Hb Hpad].
    destruct fuel as [|fuel]; [simpl in Hfuel; lia|].
    cbn [app lstrip_bytes length Nat.sub]. rewrite Hws by done.
    apply IH; [done|simpl in Hfuel; lia].
Qed.

(** [strip] removes ASCII white space around a text of plain characters. *)
Lemma strip_padded p1 body p2 :
  blank p1 = true → blank p2 = true →
  forallb plain (bytes_of body) = true → body ≠ "" →
  strip (p1 ++ body ++ p2) = body.
Proof.
  unfold blank. intros Hp1 Hp2 Hbody Hne. unfold strip.
  assert (Hlen : String.length (p1 ++ body ++ p2)
                 = length (bytes_of p1 ++ bytes_of body ++ bytes_of p2)%list).
  { by rewrite <- (bytes_of_app body p2), <- (bytes_of_app p1), length_bytes_of. }
  rewrite (bytes_of_app p1), (bytes_of_app body p2), Hlen.
  destruct (bytes_of body) as [|b l] eqn:Hb.
  { destruct body; [by destruct Hne|discriminate]. }
  pose proof Hbody as Hbody'. simpl in Hbody'.
  apply andb_true_iff in Hbody' as [Hb1 _].
  rewrite lstrip_blank;
    [ | intros b0 l0 Hb0; exact (proj1 (drop_one_space b0 l0 Hb0))
      | exact Hp1 | rewrite length_app; lia].
  cbn [app]. rewrite lstrip_bytes_plain by done.
  change (b :: (l ++ bytes_of p2))%list with ((b :: l) ++ bytes_of p2)%list.
  rewrite rev_app_distr.
  rewrite lstrip_blank;
    [ | intros b0 l0 Hb0; exact (proj2 (drop_one_space b0 l0 Hb0))
      | rewrite forallb_rev; exact Hp2
      | rewrite length_rev, length_app; lia ].
  assert (Hrev : forallb plain (rev (b :: l)) = true)
    by (rewrite forallb_rev; exact Hbody).
  destruct (rev (b :: l)) as [|b' l'] eqn:Hr.
  { apply (f_equal (@length nat)) in Hr. rewrite length_rev in Hr. discriminate. }
  simpl in Hrev. apply andb_true_iff in Hrev as [Hb' _].
  rewrite lstrip_bytes_plain by done.
  rewrite <- Hr, rev_involutive, <- Hb. apply of_bytes_of.
Qed.

(** X8.  [process_key_input] reads the typed key through white space and
    letter case: for a token of the generated format, a message that
    surrounds the token, in any letter case, with spaces, tabs or line breaks
    is handled exactly as the activation of that token by the sender under
    the sender's display name.  The display name is ["@" + username] for a
    sender with a user name that is not empty, and the full name for a sender
    whose user name is [None] or empty.  When the activation succeeds, the
    key and the record of the user both store that name. *)
Theorem process_key_input_trims (s : Storage) (tok body p1 p2 : string)
    (uid : Z) (tg_username : option string) (full_name now : string) :
  token_format tok = true →
  equal_ignoring_case body tok = true →
  blank p1 = true → blank p2 = true →
  process_key_input (p1 ++ body ++ p2) uid tg_username full_name now s =
    (let r := activate_key tok uid (Some (display_name tg_username full_name)) now s in
     Some (if r.1 then ReplyActivated else ReplyRejected, r.2))
  ∧ (∀ u, tg_username = Some u → u ≠ "" →
       display_name tg_username full_name = "@" ++ u)
  ∧ (tg_username = None ∨ tg_username = Some "" →
       display_name tg_username full_name = full_name)
  ∧ (∀ kd, keys s !! tok = Some kd → activated_by kd = None →
       users s !! str uid = None →
       ∃ s', process_key_input (p1 ++ body ++ p2) uid tg_username full_name now s
               = Some (ReplyActivated, s')
         ∧ activated_by_username <$> keys s' !! tok
             = Some (Some (display_name tg_username full_name))
         ∧ username <$> users s' !! str uid
             = Some (Some (display_name tg_username full_name))).
Proof.
  intros Hf Heq Hp1 Hp2.
  assert (Hrun : process_key_input (p1 ++ body ++ p2) uid tg_username full_name now s =
    (let r := activate_key tok uid (Some (display_name tg_username full_name)) now s in
     Some (if r.1 then ReplyActivated else ReplyRejected, r.2))).
  { destruct (equal_ignoring_case_upper body tok (token_format_chars _ Hf) Heq)
      as (Hplain & Hascii & Hupper).
    unfold process_key_input. rewrite strip_padded; [|done..|].
    + unfold upper. rewrite Hascii, Hupper. by destruct (activate_key _ _ _ _ _).
    + intros ->. by destruct tok. }
  split; [exact Hrun|]. split; [|split].
  - intros u -> Hu. unfold display_name.
    destruct (String.eqb_spec u ""); [by destruct Hu|done].
  - intros [->| ->]; reflexivity.
  - intros kd Hk Ha Hu. rewrite Hrun.
    rewrite (activate_key_success s tok kd uid
               (Some (display_name tg_username full_name)) now Hk Ha Hu).
    eexists. split; [reflexivity|]. simpl.
    by rewrite !lookup_insert_eq.
Qed.

Lemma process_key_input_trims_witness :
  (∃ s', process_key_input ("  " ++ "abcd-efgh-ijkl" ++ String "010" "") 7 None "Ann"
           "2025-12-02T09:00:00" one_key_store = Some (ReplyActivated, s')
     ∧ username <$> users s' !! str 7 = Some (Some "Ann"))
  ∧ (∃ s', process_key_input ("  " ++ "abcd-efgh-ijkl" ++ String "010" "") 7 (Some "ann")
             "Ann" "2025-12-02T09:00:00" one_key_store = Some (ReplyActivated, s')
       ∧ username <$> users s' !! str 7 = Some (Some "@ann")).
Proof.
  split.
  - destruct (process_key_input_trims one_key_store "ABCD-EFGH-IJKL" "abcd-efgh-ijkl"
                "  " (String "010" "") 7 None "Ann" "2025-12-02T09:00:00"
                eq_refl eq_refl eq_refl eq_refl) as (_ & _ & Hfull & Hstore).
    destruct (Hstore (fresh_key_data "2025-12-01T10:00:00") eq_refl eq_refl eq_refl)
      as (s' & Hrun & _ & Hname).
    exists s'. split; [exact Hrun|].
    rewrite Hname. exact (f_equal (λ n, Some (Some n)) (Hfull (or_introl eq_refl))).
  - destruct (process_key_input_trims one_key_store "ABCD-EFGH-IJKL" "abcd-efgh-ijkl"
                "  " (String "010" "") 7 (Some "ann") "Ann" "2025-12-02T09:00:00"
                eq_refl eq_refl eq_refl eq_refl) as (_ & Hat & _ & Hstore).
    destruct (Hstore (fresh_key_data "2025-12-01T10:00:00") eq_refl eq_refl eq_refl)
      as (s' & Hrun & _ & Hname).
    exists s'. split; [exact Hrun|].
    rewrite Hname.
    exact (f_equal (λ n, Some (Some n)) (Hat "ann" eq_refl ltac:(discriminate))).
Defined.

(** [strip] gives a part of the text: an ASCII text stays ASCII. *)
Lemma drop_prefix_suffix p l l' : drop_prefix p l = Some l' → ∃ k, l = (k ++ l')%list.
Proof.
  revert l. induction p as [|a p IH]; intros l H.
  - exists []. simpl in H. by injection H as ->.
  - destruct l as [|b l]; [done|]. simpl in H.
    destruct (a =? b)%nat; [|done].
    destruct (IH l H) as [k ->]. by exists (b :: k).
Qed.

Lemma drop_one_suffix ws l l' : drop_one ws l = Some l' → ∃ k, l = (k ++ l')%list.
Proof.
  induction ws as [|w ws IH]; [done|]. simpl.
  destruct (drop_prefix w l) as [l0|] eqn:E; [|exact IH].
  intros [= <-]. by apply (drop_prefix_suffix w).
Qed.

Lemma lstrip_bytes_suffix fuel ws l : ∃ k, l = (k ++ lstrip_bytes fuel ws l)%list.
Proof.
  revert l. induction fuel as [|fuel IH]; intros l; [by exists []|].
  cbn [lstrip_bytes]. destruct (drop_one ws l) as [l'|] eqn:E; [|by exists []].
  destruct (drop_one_suffix ws l l' E) as [k1 ->].
  destruct (IH l') as [k2 Hk2]. exists (k1 ++ k2)%list.
  by rewrite <- app_assoc, <- Hk2.
Qed.

Lemma is_ascii_text_bytes s :
  is_ascii_text s = forallb (λ n, (n <? 128)%nat) (bytes_of s).
Proof.
  unfold is_ascii_text, bytes_of.
  induction (list_ascii_of_string s) as [|c l IH]; [done|].
  cbn [map forallb]. by rewrite IH.
Qed.

Lemma bytes_of_of_bytes l :
  forallb (λ n, (n <? 128)%nat) l = true → bytes_of (of_bytes l) = l.
Proof.
  unfold bytes_of, of_bytes. rewrite list_ascii_of_string_of_list_ascii.
  induction l as [|n l IH]; [done|]. cbn [map forallb].
  intros [Hn Hl]%andb_true_iff. apply Nat.ltb_lt in Hn.
  rewrite nat_ascii_embedding by lia. by rewrite IH.
Qed.

Lemma strip_ascii s : is_ascii_text s = true → is_ascii_text (strip s) = true.
Proof.
  rewrite !is_ascii_text_bytes. unfold strip. intros H.
  set (l := lstrip_bytes (String.length s) whitespace (bytes_of s)).
  set (r := lstrip_bytes (length l) (map (@rev nat) whitespace) (rev l)).
  destruct (lstrip_bytes_suffix (String.length s) whitespace (bytes_of s)) as [k1 Hk1].
  destruct (lstrip_bytes_suffix (length l) (map (@rev nat) whitespace) (rev l))
    as [k2 Hk2].
  fold l in Hk1. fold r in Hk2.
  assert (Hr : forallb (λ n, (n <? 128)%nat) (rev r) = true).
  { rewrite Hk1, forallb_app in H. apply andb_true_iff in H as [_ Hl].
    rewrite <- (rev_involutive l), Hk2, rev_app_distr, forallb_app in Hl.
    by apply andb_true_iff in Hl as [Hl _]. }
  by rewrite bytes_of_of_bytes.
Qed.

(** X9.  The invitation flow.  For a user who is not authorized, [/start]
    asks for a key and waits for it.  Every typed ASCII text has a trimmed
    upper-case form; when that form is not a stored key that is unused, the
    text is rejected: the store, the state and the answer of [/start] stay
    as they are.  A typed unused key, in any letter case, is activated: the
    state is cleared, [/start] then greets the user as invited and
    [check_access] lets the user pass; the user still is not the admin. *)
Theorem invitation_flow (s : Storage) (uid : Z) (tok text : string)
    (kd : KeyData) (tg_username : option string) (full_name now : string) :
  is_authorized uid s = false →
  cmd_start uid s = (AskForKey, WaitingForKey)
  ∧ (∀ typed, is_ascii_text typed = true →
       ∃ key, upper (strip typed) = Some key
         ∧ ((∀ kd', keys s !! key = Some kd' → activated_by kd' ≠ None) →
            process_key_input typed uid tg_username full_name now s
              = Some (ReplyRejected, s)
            ∧ key_input_state ReplyRejected = WaitingForKey
            ∧ cmd_start uid s = (AskForKey, WaitingForKey)))
  ∧ (token_format tok = true → equal_ignoring_case text tok = true →
     keys s !! tok = Some kd → activated_by kd = None →
     ∃ s', process_key_input text uid tg_username full_name now s
             = Some (ReplyActivated, s')
       ∧ key_input_state ReplyActivated = NoState
       ∧ cmd_start uid s' = (GreetInvited, NoState)
       ∧ check_access IsCallback (Some uid) false s' = (true, None, None)
       ∧ Store.is_admin uid s' = false).
Proof.
  intros Hauth. unfold is_authorized in Hauth.
  destruct (Z.eqb_spec uid (admin_id s)) as [|Hadm]; [done|].
  apply bool_decide_eq_false in Hauth.
  assert (Hu : users s !! str uid = None).
  { destruct (users s !! str uid) eqn:E; [|done]. destruct Hauth. eauto. }
  assert (Hstart : cmd_start uid s = (AskForKey, WaitingForKey)).
  { unfold cmd_start, is_authorized.
    destruct (Z.eqb_spec uid (admin_id s)); [done|].
    by rewrite bool_decide_eq_false_2. }
  split; [exact Hstart|split].
  - intros typed Hascii. apply strip_ascii in Hascii.
    unfold process_key_input, upper. rewrite Hascii.
    eexists. split; [reflexivity|].
    intros Hno. split; [|by split].
    set (key := string_of_list_ascii (map upper_ascii (list_ascii_of_string (strip typed)))) in *.
    destruct (keys s !! key) as [kd'|] eqn:Hk.
    + destruct (activated_by kd') as [u|] eqn:Ha; [|by destruct (Hno kd' eq_refl)].
      by rewrite (activate_key_used s key kd' u).
    + by rewrite activate_key_unknown.
  - intros Hf Heq Hk Ha.
    unfold process_key_input. rewrite (upper_strip_token text tok) by done.
    rewrite (activate_key_success s tok kd) by done.
    eexists. split; [reflexivity|]. split; [done|].
    assert (His : is_authorized uid
              {| admin_id := admin_id s;
                 keys := <[tok := {| created_at := created_at kd;
                                     activated_by := Some uid;
                                     activated_by_username :=
                                       Some (display_name tg_username full_name);
                                     activated_at := Some now |}]> (keys s);
                 users := <[str uid := {| user_id := uid;
                                          username := Some (display_name tg_username full_name);
                                          key_used := tok;
                                          user_activated_at := now |}]> (users s) |}
              = true).
    { unfold is_authorized. simpl. destruct (uid =? admin_id s)%Z; [done|].
      apply bool_decide_eq_true. rewrite lookup_insert_eq. eauto. }
    assert (Hna : (uid =? admin_id s)%Z = false) by by apply Z.eqb_neq.
    unfold cmd_start, check_access. rewrite His.
    unfold Store.is_admin. simpl. by rewrite Hna.
Qed.

Lemma invitation_flow_witness :
  cmd_start 7 one_key_store = (AskForKey, WaitingForKey)
  ∧ process_key_input " nope-0000-0000 " 7 (Some "ann") "Ann"
      "2025-12-02T09:00:00" one_key_store = Some (ReplyRejected, one_key_store)
  ∧ ∃ s', process_key_input "abcd-efgh-ijkl" 7 (Some "ann") "Ann"
            "2025-12-02T09:00:00" one_key_store = Some (ReplyActivated, s')
      ∧ cmd_start 7 s' = (GreetInvited, NoState).
Proof.
  destruct (invitation_flow one_key_store 7 "ABCD-EFGH-IJKL" "abcd-efgh-ijkl"
              (fresh_key_data "2025-12-01T10:00:00") (Some "ann") "Ann"
              "2025-12-02T09:00:00" eq_refl) as (H1 & H2 & H3).
  split; [exact H1|]. split.
  - destruct (H2 " nope-0000-0000 " eq_refl) as (key & Hkey & Hrej).
    assert (Hk : key = "NOPE-0000-0000").
    { assert (Hu : upper (strip " nope-0000-0000 ") = Some "NOPE-0000-0000")
        by reflexivity.
      rewrite Hu in Hkey. injection Hkey as Hkey. symmetry. exact Hkey. }
    apply Hrej. intros kd' Hkd. rewrite Hk in Hkd. discriminate Hkd.
  - destruct (H3 eq_refl eq_refl eq_refl eq_refl) as (s' & Hp & _ & Hs & _).
    exists s'. split; [exact Hp|exact Hs].
Defined.

(* ===================================================================== *)
(** ** Properties of the admin menu *)
(* ===================================================================== *)

Import Keyboards Admin.

Lemma after_colon_delete k : after_colon ("delete_key:" ++ k) = Some k.
Proof. reflexivity. Qed.

Lemma keyboard_rows (ks : list AccessKey) unused row :
  row ∈ get_keys_list_keyboard ks unused →
  row = [back_button] ∨ ∃ k, k ∈ take 8 ks ∧ row = [delete_button k].
Proof.
  unfold get_keys_list_keyboard. intros [Hrow|Hrow]%elem_of_app.
  - right. apply list_elem_of_In, in_map_iff in Hrow as (k & <- & Hk).
    exists k. split; [by apply list_elem_of_In|done].
  - left. by apply list_elem_of_singleton in Hrow.
Qed.

Lemma admin_delete_listed s uid k :
  Store.is_admin uid s = true → listed s k →
  admin_delete_key (Some s) uid (callback_data (delete_button k))
    = Some (AlertDeleted :: admin_menu (Some (delete_key (key k) s).2) uid,
            Some (delete_key (key k) s).2).
Proof.
  intros Hadm (kd & Hk & _). unfold admin_delete_key. rewrite Hadm.
  cbn [delete_button callback_data]. rewrite after_colon_delete.
  destruct (delete_key_known s (key k) kd Hk) as (Hd & _).
  destruct (delete_key (key k) s) as [d s'] eqn:E. simpl in *. by rewrite Hd.
Qed.

Lemma show_keys_shown ks unused shown kb :
  ShowKeys shown kb ∈ show_keys ks unused →
  shown = take 20 ks ∧ kb = get_keys_list_keyboard (take 10 ks) unused.
Proof.
  unfold show_keys. destruct ks as [|k ks].
  - intros [H|H]%elem_of_cons; [discriminate|].
    apply list_elem_of_singleton in H. discriminate.
  - intros [H|H]%elem_of_cons; [by injection H as -> ->|].
    apply list_elem_of_singleton in H. discriminate.
Qed.

(** X10.  Every delete button the admin is shown works.  The keyboards of
    [admin_unused_keys] and [admin_used_keys] have at most eight delete rows
    and the back row; the callback data of each delete button belongs to a
    stored key of the text above, and [admin_delete_key] with it deletes that
    key: the alert is the one of a deletion, never "not found", and the
    token is unknown afterwards. *)
Theorem delete_buttons_work (s : Storage) (uid : Z) (acts : list action)
    (shown : list AccessKey) (kb : list (list InlineKeyboardButton)) :
  Store.is_admin uid s = true →
  acts = admin_unused_keys (Some s) uid ∨ acts = admin_used_keys (Some s) uid →
  ShowKeys shown kb ∈ acts →
  (length kb <= 9)%nat
  ∧ last kb = Some [back_button]
  ∧ ∀ row, row ∈ kb →
      row = [back_button]
      ∨ ∃ k, k ∈ shown ∧ listed s k ∧ row = [delete_button k]
           ∧ admin_delete_key (Some s) uid (callback_data (delete_button k))
               = Some (AlertDeleted :: admin_menu (Some (delete_key (key k) s).2) uid,
                       Some (delete_key (key k) s).2)
           ∧ keys (delete_key (key k) s).2 !! key k = None.
Proof.
  intros Hadm Hacts Hshow.
  assert (∃ l unused, (∀ k, k ∈ l → listed s k)
            ∧ shown = take 20 l ∧ kb = get_keys_list_keyboard (take 10 l) unused)
    as (l & unused & Hl & -> & ->).
  { destruct Hacts as [-> | ->]; simpl in Hshow; rewrite Hadm in Hshow.
    - exists (get_unused_keys s), true. split.
      { intros k Hk. by apply (proj1 (key_listings s)) in Hk as [? _]. }
      by apply show_keys_shown.
    - exists (get_used_keys s), false. split.
      { intros k Hk. by apply (proj1 (proj2 (key_listings s))) in Hk as [? _]. }
      by apply show_keys_shown. }
  split; [|split].
  - unfold get_keys_list_keyboard.
    rewrite length_app, length_map, length_take.
    pose proof (Nat.le_min_l 8 (length (take 10 l))).
    cbn [length]. lia.
  - unfold get_keys_list_keyboard. apply last_snoc.
  - intros row [->|(k & Hk & ->)]%keyboard_rows; [by left|right].
    rewrite take_take in Hk. simpl in Hk.
    assert (Hin : k ∈ l) by by eapply subseteq_take.
    exists k. split.
    { apply elem_of_take in Hk as (i & Hi & Hlt).
      apply elem_of_take. exists i. split; [done|lia]. }
    split; [by apply Hl|]. split; [done|].
    split; [by apply admin_delete_listed; [|apply Hl]|].
    rewrite delete_key_keys. apply lookup_delete_eq.
Qed.

Lemma delete_buttons_work_witness :
  ∃ rows, admin_unused_keys (Some two_key_store) 1
            = [ShowKeys (get_unused_keys two_key_store) rows; Answer]
    ∧ (length rows <= 9)%nat ∧ last rows = Some [back_button].
Proof.
  eexists. split; [by vm_compute|].
  match goal with
  | |- (length ?rows <= 9)%nat ∧ _ =>
      destruct (delete_buttons_work two_key_store 1
                  (admin_unused_keys (Some two_key_store) 1)
                  (get_unused_keys two_key_store) rows)
        as (H1 & H2 & _);
        [by vm_compute | by left | by vm_compute; left | ]
  end.
  split; [exact H1|exact H2].
Defined.

(** X11.  The key management is the admin's alone.  For every sender other
    than the configured admin, activated or not, and for every sender while
    no storage is set, each admin handler answers "no access", shows nothing
    and leaves the storage as it is; [/start] never greets such a sender as
    the creator. *)
Theorem admin_handlers_closed (storage : option Storage) (uid : Z) (data now : string)
    (fuel : nat) (rnd : nat → nat) (pos : nat) :
  (∀ s, storage = Some s → uid ≠ admin_id s) →
  Admin.is_admin storage uid = false
  ∧ admin_menu storage uid = [AlertNoAccess]
  ∧ admin_unused_keys storage uid = [AlertNoAccess]
  ∧ admin_used_keys storage uid = [AlertNoAccess]
  ∧ admin_delete_key storage uid data = Some ([AlertNoAccess], storage)
  ∧ admin_create_key storage uid fuel rnd pos now = Some ([AlertNoAccess], storage)
  ∧ (∀ s, storage = Some s → (cmd_start uid s).1 ≠ GreetCreator).
Proof.
  intros Hne. destruct storage as [s|]; simpl; [|repeat split; done].
  assert (Hadm : Store.is_admin uid s = false).
  { apply Z.eqb_neq. by apply Hne. }
  rewrite Hadm. repeat split; try done.
  intros s0 [= <-]. unfold cmd_start. rewrite Hadm.
  by destruct (is_authorized uid s).
Qed.

Lemma admin_handlers_closed_witness :
  is_authorized 7 two_key_store = true
  ∧ admin_delete_key (Some two_key_store) 7 "delete_key:AAAA-AAAA-AAAA"
      = Some ([AlertNoAccess], Some two_key_store).
Proof.
  split; [by vm_compute|].
  destruct (admin_handlers_closed (Some two_key_store) 7 "delete_key:AAAA-AAAA-AAAA"
              "" 0 (λ _, 0%nat) 0) as (_ & _ & _ & _ & H & _); [|exact H].
  intros s [= <-]. simpl. lia.
Defined.

(* ===================================================================== *)
(** ** Further properties of the fetch client *)
(* ===================================================================== *)

Lemma first_url_true us u :
  first_url us = Some u →
  truthy u = true ∧ ∃ d, PDict d ∈ us ∧ get d "url" = u.
Proof.
  induction us as [|x us IH]; [done|]. simpl.
  assert (Hrest : first_url us = Some u →
            truthy u = true ∧ ∃ d, PDict d ∈ x :: us ∧ get d "url" = u).
  { intros (? & d & ? & ?)%IH. split; [done|]. exists d. split; [by right|done]. }
  destruct x as [| | | |l|d]; try done.
  destruct (truthy (get d "url")) eqn:Ht; [|done].
  intros [= <-]. split; [done|]. exists d. split; [by left|done].
Qed.

(** X12.  The attachments the parser keeps: at most one for each group of
    ["materials"], each with an address that is a true value (never [null],
    empty or missing) taken from one of the group's ["urls"] entries, and
    with the group's title or, without one, the default title. *)
Theorem parse_materials_kept (mats : list pyval) (ms : list MaterialItem) :
  parse_materials mats = Ok ms →
  (length ms <= length mats)%nat
  ∧ ∀ m, m ∈ ms →
      truthy (url m) = true
      ∧ ∃ g us u, PDict g ∈ mats
          ∧ title m = get_default g "title" (PStr "Файл")
          ∧ py_iter (py_or (get g "urls") (PList [])) = Ok us
          ∧ PDict u ∈ us ∧ get u "url" = url m.
Proof.
  revert ms. induction mats as [|mat mats IH]; intros ms; simpl.
  { intros [= <-]. split; [done|]. intros m Hm. by apply elem_of_nil in Hm. }
  assert (Hskip : parse_materials mats = Ok ms →
    (length ms <= S (length mats))%nat
    ∧ ∀ m, m ∈ ms →
        truthy (url m) = true
        ∧ ∃ g us u, PDict g ∈ mat :: mats
            ∧ title m = get_default g "title" (PStr "Файл")
            ∧ py_iter (py_or (get g "urls") (PList [])) = Ok us
            ∧ PDict u ∈ us ∧ get u "url" = url m).
  { intros (Hlen & Hall)%IH. split; [lia|]. intros m Hm.
    destruct (Hall m Hm) as (? & g & us & u & ? & ?). split; [done|].
    exists g, us, u. split; [by right|done]. }
  destruct mat as [| | | |l|g]; try done.
  destruct (py_iter (py_or (get g "urls") (PList []))) as [us|] eqn:Hus; [|done].
  simpl. destruct (parse_materials mats) as [tail|] eqn:Htail; [|done]. simpl.
  destruct (IH tail eq_refl) as (Hlen & Hall).
  assert (Hold : ∀ m, m ∈ tail →
        truthy (url m) = true
        ∧ ∃ g0 us0 u, PDict g0 ∈ PDict g :: mats
            ∧ title m = get_default g0 "title" (PStr "Файл")
            ∧ py_iter (py_or (get g0 "urls") (PList [])) = Ok us0
            ∧ PDict u ∈ us0 ∧ get u "url" = url m).
  { intros m Hm. destruct (Hall m Hm) as (? & g0 & us0 & u & ? & ?). split; [done|].
    exists g0, us0, u. split; [by right|done]. }
  destruct (first_url us) as [u|] eqn:Hu; intros [= <-].
  - split; [simpl; lia|]. intros m [->|Hm]%elem_of_cons; [|by apply Hold].
    apply first_url_true in Hu as (Ht & d & Hd & Hurl). simpl. split; [done|].
    exists g, us, d. split; [by left|done].
  - split; [lia|exact Hold].
Qed.

Lemma parse_materials_kept_witness :
  ∃ ms, parse_materials
          [PDict [("title", PStr "Sheet");
                  ("urls", PList [PDict [("url", PStr "")];
                                  PDict [("url", PStr "https://x/1")];
                                  PDict [("url", PStr "https://x/2")]])];
           PDict [("title", PStr "Empty"); ("urls", PList [])]] = Ok ms
    ∧ (length ms <= 2)%nat
    ∧ (url <$> ms) = [PStr "https://x/1"].
Proof.
  eexists. split; [by vm_compute|].
  match goal with
  | |- (length ?ms <= _)%nat ∧ _ =>
      destruct (parse_materials_kept
        [PDict [("title", PStr "Sheet");
                ("urls", PList [PDict [("url", PStr "")];
                                PDict [("url", PStr "https://x/1")];
                                PDict [("url", PStr "https://x/2")]])];
         PDict [("title", PStr "Empty"); ("urls", PList [])]] ms) as [H _];
        [by vm_compute|]
  end.
  split; [exact H|by vm_compute].
Defined.

(** The parser over [parse_iso_date] as date reader is the parser of
    [Client]. *)
Lemma reader_parse_element hw :
  Reader.parse_element parse_iso_date hw = parse_element hw.
Proof. reflexivity. Qed.

Lemma reader_parse_elements l :
  Reader.parse_elements parse_iso_date l = parse_elements l.
Proof.
  induction l as [|hw l IH]; [done|].
  cbn [Reader.parse_elements parse_elements].
  by rewrite reader_parse_element, IH.
Qed.

Lemma reader_parse_homeworks data :
  Reader._parse_homeworks parse_iso_date data = _parse_homeworks data.
Proof.
  unfold Reader._parse_homeworks, _parse_homeworks.
  destruct (match data with
            | PDict d =>
                py_or (py_or (py_or (get d "payload") (get d "response"))
                         (get d "data")) (PList [])
            | _ => data
            end); try done.
Qed.

(** What an element gives when it gives an item, whatever the date reader. *)
Lemma parse_element_item read_date hw i :
  Reader.parse_element read_date hw = Ok (Some i) →
  text_is_empty (homework_text i) = false
  ∧ ∃ h s, hw = PDict h
      ∧ homework_text i = element_text h
      ∧ get_default h "date" (PStr "") = PStr s
      ∧ read_date s = Some (homework_date i)
      ∧ subject i = get_default h "subject_name" (PStr "Без предмета")
      ∧ is_done i = get_default h "is_done" (PBool false).
Proof.
  destruct hw as [| | | |l|h]; try done. unfold Reader.parse_element.
  fold (element_text h).
  destruct (text_is_empty (element_text h)) eqn:Ht; [done|].
  destruct (get_default h "date" (PStr "")) as [| | |s|l|d] eqn:Hd; try done.
  cbn [Reader.fromisoformat]. destruct (read_date s) as [dt|] eqn:Hs; [|done].
  destruct (py_iter (py_or (get h "materials") (PList []))) as [mats|]; [|done].
  simpl. destruct (parse_materials mats) as [ms|]; [|done]. simpl.
  intros [= <-]. simpl. split; [done|]. by exists h, s.
Qed.

Lemma parse_elements_items read_date l items :
  Reader.parse_elements read_date l = Ok items →
  (length items <= length l)%nat
  ∧ ∀ i, i ∈ items →
      ∃ hw, hw ∈ l ∧ Reader.parse_element read_date hw = Ok (Some i).
Proof.
  revert items. induction l as [|hw l IH]; intros items;
    cbn [Reader.parse_elements].
  { intros [= <-]. split; [done|]. intros i Hi. by apply elem_of_nil in Hi. }
  destruct (Reader.parse_element read_date hw) as [o|] eqn:Hhw; [|done].
  cbn [mbind result_bind].
  destruct (Reader.parse_elements read_date l) as [rest|]; [|done].
  cbn [mbind result_bind].
  destruct (IH rest eq_refl) as (Hlen & Hall).
  assert (Hold : ∀ i, i ∈ rest →
            ∃ hw0, hw0 ∈ hw :: l ∧ Reader.parse_element read_date hw0 = Ok (Some i)).
  { intros i (hw0 & ? & ?)%Hall. exists hw0. split; [by right|done]. }
  destruct o as [i0|]; intros [= <-].
  - split; [simpl; lia|]. intros i [->|Hi]%elem_of_cons; [|by apply Hold].
    exists hw. split; [by left|done].
  - split; [cbn [length]; lia|exact Hold].
Qed.

Lemma insert_item_perm x l r : insert_item x l = Ok r → r ≡ₚ x :: l.
Proof.
  revert r. induction l as [|y l IH]; intros r; simpl.
  { by intros [= <-]. }
  destruct (item_lt y x) as [[]|]; simpl; [| |done].
  - destruct (insert_item x l) as [r'|]; [|done]. simpl. intros [= <-].
    rewrite (IH r' eq_refl). apply Permutation_swap.
  - by intros [= <-].
Qed.

Lemma sort_items_perm l r : sort_items l = Ok r → r ≡ₚ l.
Proof.
  revert r. induction l as [|x l IH]; intros r; simpl.
  { by intros [= <-]. }
  destruct (sort_items l) as [r'|]; [|done]. simpl.
  intros Hr%insert_item_perm. by rewrite Hr, (IH r' eq_refl).
Qed.

Lemma parse_homeworks_elements read_date data items :
  Reader._parse_homeworks read_date data = Ok items →
  ∃ unsorted, Reader.parse_elements read_date (elements_of data) = Ok unsorted
    ∧ sort_items unsorted = Ok items.
Proof.
  unfold Reader._parse_homeworks, elements_of.
  destruct (match data with PDict d => unwrap d | _ => data end) as [| | | |l|d] eqn:E.
  all: assert (Hd : match data with
                    | PDict d0 =>
                        py_or (py_or (py_or (get d0 "payload") (get d0 "response"))
                                 (get d0 "data")) (PList [])
                    | _ => data
                    end = match data with PDict d => unwrap d | _ => data end)
         by (by destruct data).
  all: rewrite Hd, E.
  all: try (intros [= <-]; by exists []).
  destruct (Reader.parse_elements read_date l) as [unsorted|]; [|done].
  cbn [mbind result_bind]. eauto.
Qed.

(** X13.  What [_parse_homeworks] returns when it returns, whatever texts
    [date.fromisoformat] of the Python version in use reads as dates (the
    reader is a parameter): no more items than the payload has elements, and
    every item stems from an element that is a dictionary, has a text that
    is not empty after trimming and a ["date"] that is a string which the
    reader reads as the date of the item; the subject is the element's
    ["subject_name"] or the default subject, the completion flag its
    ["is_done"] or false.  With [parse_iso_date] as the reader, the parser
    is [Client._parse_homeworks]. *)
Theorem parse_homeworks_items (read_date : string → option date)
    (data : pyval) (items : list HomeworkItem) :
  Reader._parse_homeworks read_date data = Ok items →
  (length items <= length (elements_of data))%nat
  ∧ (∀ i, i ∈ items →
      text_is_empty (homework_text i) = false
      ∧ ∃ h s, PDict h ∈ elements_of data
          ∧ homework_text i = element_text h
          ∧ get_default h "date" (PStr "") = PStr s
          ∧ read_date s = Some (homework_date i)
          ∧ subject i = get_default h "subject_name" (PStr "Без предмета")
          ∧ is_done i = get_default h "is_done" (PBool false))
  ∧ Reader._parse_homeworks parse_iso_date data = _parse_homeworks data.
Proof.
  intros (unsorted & Hparse & Hsort)%parse_homeworks_elements.
  apply sort_items_perm in Hsort.
  apply parse_elements_items in Hparse as (Hlen & Hall).
  split; [by rewrite Hsort|]. split; [|apply reader_parse_homeworks].
  intros i Hi. rewrite Hsort in Hi.
  destruct (Hall i Hi) as (hw & Hhw & Hel).
  apply parse_element_item in Hel as (Ht & h & s & -> & Hrest).
  split; [done|]. by exists h, s.
Qed.

Lemma parse_homeworks_items_witness :
  _parse_homeworks sample_payload = Ok [sample_item]
  ∧ (length [sample_item] <= length (elements_of sample_payload))%nat
  ∧ ∃ i, Reader._parse_homeworks
           (λ s, if String.eqb s "20251215"
                 then Some {| year := 2025; month := 12; day := 15 |}
                 else parse_iso_date s)
           (PList [PDict [("homework", PStr "Ex. 1"); ("date", PStr "20251215")]])
         = Ok [i]
       ∧ homework_date i = {| year := 2025; month := 12; day := 15 |}.
Proof.
  split; [reflexivity|].
  split.
  - exact (proj1 (parse_homeworks_items parse_iso_date sample_payload [sample_item]
                    eq_refl)).
  - eexists. split; [reflexivity|].
    destruct (parse_homeworks_items
                (λ s, if String.eqb s "20251215"
                      then Some {| year := 2025; month := 12; day := 15 |}
                      else parse_iso_date s)
                (PList [PDict [("homework", PStr "Ex. 1"); ("date", PStr "20251215")]])
                _ eq_refl) as (_ & H & _).
    destruct (H _ (list_elem_of_here _ _)) as (_ & h & s & _ & _ & _ & Hd & _).
    reflexivity.
Defined.

(** *** Payloads the parser accepts *)

Lemma parse_homeworks_unfold data :
  _parse_homeworks data = (items ← parse_elements (elements_of data); sort_items items).
Proof.
  unfold _parse_homeworks, elements_of, unwrap.
  by destruct data as [| | | |l|d]; [..|destruct (py_or _ _)].
Qed.

Lemma date_ltb_lt a b :
  date_ltb a b = true ↔
  (year a < year b
   ∨ (year a = year b ∧ (month a < month b ∨ (month a = month b ∧ day a < day b))))%nat.
Proof.
  unfold date_ltb.
  destruct (Nat.eqb_spec (year a) (year b)), (Nat.eqb_spec (month a) (month b));
    rewrite Nat.ltb_lt; lia.
Qed.

Lemma date_eqb_eq a b : date_eqb a b = true ↔ a = b.
Proof.
  unfold date_eqb. rewrite !andb_true_iff, !Nat.eqb_eq.
  destruct a, b; simpl. split; [intros [[-> ->] ->]; done|intros [= -> -> ->]; done].
Qed.

Lemma key_lt_true x y :
  key_lt x y = true ↔
  date_ltb (homework_date x) (homework_date y) = true
  ∨ (homework_date x = homework_date y
     ∧ Py.str_lt (subject_text x) (subject_text y) = true).
Proof.
  unfold key_lt.
  destruct (date_eqb (homework_date x) (homework_date y)) eqn:E; simpl.
  - apply date_eqb_eq in E. split; [by right|].
    intros [H|[_ H]]; [|done]. rewrite E in H.
    apply date_ltb_lt in H. lia.
  - split; [by left|]. intros [H|[H _]]; [done|].
    apply date_eqb_eq in H. congruence.
Qed.

Lemma key_lt_asym x y : key_lt x y = true → key_lt y x = false.
Proof.
  intros Hxy. destruct (key_lt y x) eqn:Hyx; [|done].
  apply key_lt_true in Hxy, Hyx.
  destruct Hxy as [H1|[E1 H1]], Hyx as [H2|[E2 H2]].
  - apply date_ltb_lt in H1, H2. lia.
  - rewrite E2 in H1. apply date_ltb_lt in H1. lia.
  - rewrite E1 in H2. apply date_ltb_lt in H2. lia.
  - apply str_lt_asym in H1. change Store.str_lt with Py.str_lt in H1. congruence.
Qed.

Lemma key_ge_trans x y z :
  key_lt x y = false → key_lt y z = false → key_lt x z = false.
Proof.
  intros Hxy Hyz. destruct (key_lt x z) eqn:Hxz; [|done].
  assert (Hn : ∀ a b, key_lt a b = false →
            date_ltb (homework_date a) (homework_date b) = false
            ∧ (homework_date a = homework_date b →
               Py.str_lt (subject_text a) (subject_text b) = false)).
  { intros a b H. split.
    - destruct (date_ltb _ _) eqn:E; [|done].
      assert (key_lt a b = true) by (apply key_lt_true; by left). congruence.
    - intros E. destruct (Py.str_lt _ _) eqn:E'; [|done].
      assert (key_lt a b = true) by (apply key_lt_true; by right). congruence. }
  destruct (Hn _ _ Hxy) as [D1 S1], (Hn _ _ Hyz) as [D2 S2].
  assert (Hd : ∀ a b, date_ltb a b = false →
            ¬ (year a < year b
               ∨ (year a = year b
                  ∧ (month a < month b ∨ (month a = month b ∧ day a < day b))))%nat).
  { intros a b H Hlt. apply date_ltb_lt in Hlt. congruence. }
  apply Hd in D1, D2.
  assert (He : ∀ a b : date,
            year a = year b → month a = month b → day a = day b → a = b).
  { intros [] []; simpl; by intros -> -> ->. }
  apply key_lt_true in Hxz as [H|[E H]].
  - apply date_ltb_lt in H.
    destruct (homework_date x), (homework_date y), (homework_date z); simpl in *. lia.
  - assert (E1 : homework_date x = homework_date y).
    { apply He; rewrite <- E in D2; lia. }
    assert (E2 : homework_date y = homework_date z) by congruence.
    pose proof (str_ge_trans _ _ _ (S1 E1) (S2 E2)) as Hs.
    change Store.str_lt with Py.str_lt in Hs. congruence.
Qed.

Lemma item_lt_text x y :
  text_subject x → text_subject y → item_lt x y = Ok (key_lt x y).
Proof.
  intros [a Ha] [b Hb]. unfold item_lt, key_lt, subject_text. rewrite Ha, Hb.
  destruct (negb (date_eqb _ _)); [done|]. simpl.
  destruct (String.eqb_spec a b) as [->|]; [|done].
  destruct (Py.str_lt b b) eqn:E; [|done].
  pose proof (str_lt_asym b b) as H. change Store.str_lt with Py.str_lt in H.
  rewrite (H E) in E. done.
Qed.

Lemma insert_item_text x l :
  text_subject x → Forall text_subject l →
  StronglySorted (λ a b, key_lt b a = false) l →
  ∃ r, insert_item x l = Ok r
    ∧ StronglySorted (λ a b, key_lt b a = false) r.
Proof.
  intros Hx Hl Hs. induction Hs as [|y l Hsl IH Hy]; simpl.
  { eexists. split; [done|]. by repeat constructor. }
  apply Forall_cons in Hl as [Hty Hl].
  rewrite item_lt_text by done. simpl.
  destruct (key_lt y x) eqn:Hyx.
  - destruct (IH Hl) as (r & Hr & Hsr). rewrite Hr. simpl.
    eexists. split; [done|]. constructor; [done|].
    apply Forall_forall. intros z Hz.
    rewrite (insert_item_perm _ _ _ Hr) in Hz.
    apply elem_of_cons in Hz as [->|Hz].
    + by apply key_lt_asym.
    + by apply (proj1 (Forall_forall _ _) Hy).
  - eexists. split; [done|]. constructor; [by constructor|].
    constructor; [done|].
    eapply Forall_impl; [exact Hy|]. intros z Hz. simpl in Hz.
    by apply (key_ge_trans z y x).
Qed.

Lemma sort_items_text l :
  Forall text_subject l →
  ∃ r, sort_items l = Ok r ∧ StronglySorted (λ a b, key_lt b a = false) r.
Proof.
  induction 1 as [|x l Hx Hl IH]; simpl.
  { eexists. split; [done|]. constructor. }
  destruct IH as (r & Hr & Hs). rewrite Hr. simpl. apply insert_item_text; [done| |done].
  by rewrite (sort_items_perm _ _ Hr).
Qed.

Lemma iterable_iter v :
  iterable v = true → ∃ l, py_iter (py_or v (PList [])) = Ok l.
Proof.
  unfold iterable. destruct (py_or v (PList [])); try done; simpl; eauto.
Qed.

Lemma parse_materials_tame mats :
  forallb tame_material mats = true → ∃ ms, parse_materials mats = Ok ms.
Proof.
  induction mats as [|mat mats IH]; simpl; [eauto|].
  intros [Hm (ms & Hms)%IH]%andb_true_iff.
  destruct mat as [| | | |l|g]; eauto.
  simpl in Hm. apply iterable_iter in Hm as [us Hus].
  cbn [parse_materials]. rewrite Hus, Hms. simpl. eauto.
Qed.

Lemma get_default_text h k a b :
  (∃ s, get_default h k (PStr a) = PStr s) → ∃ s, get_default h k (PStr b) = PStr s.
Proof. unfold get_default. destruct (dict_lookup h k); eauto. Qed.

Lemma parse_element_tame hw :
  tame_element hw = true →
  ∃ o, parse_element hw = Ok o ∧ ∀ i, o = Some i → text_subject i.
Proof.
  destruct hw as [| | | |l|h]; try (intros _; by exists None).
  unfold tame_element, parse_element.
  intros H. apply andb_true_iff in H as [H Hmats].
  apply andb_true_iff in H as [H Hit]. apply andb_true_iff in H as [Hd Hsub].
  destruct (text_is_empty _); [by exists None|].
  destruct (get_default h "date" (PStr "")) as [| | |s|?|?]; try done.
  cbn [fromisoformat]. destruct (parse_iso_date s) as [dt|]; [|by exists None].
  destruct (iterable_iter _ Hit) as [mats Hiter]. rewrite Hiter in Hmats |- *.
  destruct (parse_materials_tame _ Hmats) as (ms & Hms).
  cbn [mbind result_bind]. rewrite Hms. cbn [mbind result_bind].
  eexists. split; [done|]. intros i [= <-]. unfold text_subject. simpl.
  apply (get_default_text h "subject_name" "").
  destruct (get_default h "subject_name" (PStr "")); try done. eauto.
Qed.

Lemma parse_elements_tame l :
  forallb tame_element l = true →
  ∃ items, parse_elements l = Ok items ∧ Forall text_subject items.
Proof.
  induction l as [|hw l IH]; simpl; [eauto|].
  intros [Hhw (items & Hi & Ht)%IH]%andb_true_iff.
  destruct (parse_element_tame hw Hhw) as (o & -> & Ho). simpl.
  rewrite Hi. simpl. destruct o as [i|]; eexists; split; try done.
  constructor; [by apply Ho|done].
Qed.

(** X14.  A payload of tame elements is parsed without exception, and the
    result is sorted.  When every element that is a dictionary has a string
    (or nothing) as its ["date"] and ["subject_name"], and values that can be
    run over (or false ones) as its ["materials"] and their ["urls"],
    [_parse_homeworks] returns a list in ascending order of
    [(homework_date, subject)]: no item compares below an item before it. *)
Theorem parse_homeworks_tame (data : pyval) :
  forallb tame_element (elements_of data) = true →
  ∃ items, _parse_homeworks data = Ok items
    ∧ StronglySorted item_le items
    ∧ Forall text_subject items.
Proof.
  intros (unsorted & Hparse & Htext)%parse_elements_tame.
  destruct (sort_items_text unsorted Htext) as (items & Hsort & Hsorted).
  assert (Hti : Forall text_subject items)
    by by rewrite (sort_items_perm _ _ Hsort).
  exists items. rewrite parse_homeworks_unfold, Hparse. simpl.
  split; [done|]. split; [|done].
  clear -Hsorted Hti. induction Hsorted as [|x l Hl IH Hx]; [constructor|].
  apply Forall_cons in Hti as [Htx Htl]. constructor; [by apply IH|].
  apply Forall_forall. intros y Hy. unfold item_le.
  rewrite item_lt_text; [|by apply (proj1 (Forall_forall _ _) Htl)|done].
  f_equal. by apply (proj1 (Forall_forall _ _) Hx).
Qed.

Lemma parse_homeworks_tame_witness :
  ∃ items,
    _parse_homeworks
      (PDict [("response",
               PList [PInt 3; good_element;
                      PDict [("homework", PStr "Ex. 1");
                             ("date", PStr "2025-12-14")]])]) = Ok items
    ∧ StronglySorted item_le items.
Proof.
  destruct (parse_homeworks_tame
              (PDict [("response",
                       PList [PInt 3; good_element;
                              PDict [("homework", PStr "Ex. 1");
                                     ("date", PStr "2025-12-14")]])]) eq_refl)
    as (items & H & Hs & _).
  exists items. split; [exact H|exact Hs].
Defined.

(** *** The pauses of [fetch_homeworks] *)

Lemma fetch_loop_shape n a M env last :
  Z.of_nat (a + S n) = M →
  ∃ k, (k <= n)%nat
    ∧ (fetch_loop (seq a (S n)) M env last).2 = (failed_attempts a k ++ [EvGet])%list.
Proof.
  revert a last. induction n as [|n IH]; intros a last HM.
  - exists 0%nat. split; [done|]. cbn [seq fetch_loop].
    destruct (env a) as [e|st body]; [|done]. simpl.
    destruct (Z.ltb_spec (Z.of_nat a) (M - 1)); [lia|done].
  - remember (S n) as n' eqn:Hn'. cbn [seq fetch_loop].
    destruct (env a) as [e|st body]; [|exists 0%nat; split; [lia|done]].
    subst n'. destruct (IH (S a) (Some e)) as (k & Hk & Htr); [lia|].
    destruct (fetch_loop (seq (S a) (S n)) M env (Some e)) as [r tr].
    simpl in Htr. subst tr. exists (S k). split; [lia|]. simpl.
    destruct (Z.ltb_spec (Z.of_nat a) (M - 1)); [done|lia].
Qed.

Lemma total_pause_failed a k :
  foldr Z.add 0%Z (map (λ j, 2 ^ Z.of_nat j)%Z (seq a k))
  = (2 ^ Z.of_nat (a + k) - 2 ^ Z.of_nat a)%Z.
Proof.
  revert a. induction k as [|k IH]; intros a; simpl.
  - rewrite Nat.add_0_r. lia.
  - rewrite IH. replace (Z.of_nat (S a + k)) with (Z.of_nat (a + S k)) by lia.
    replace (Z.of_nat (S a)) with (Z.of_nat a + 1)%Z by lia.
    rewrite Z.pow_add_r by lia. lia.
Qed.

(** X15.  The pauses of [fetch_homeworks], whatever the requests give.
    Without attempts ([max_retries] zero or negative) it raises the
    connection error at once, with no request and no last error.  Otherwise
    its steps are those of some [k] failed attempts, each followed by its
    pause, and a last request that is followed by no pause: it pauses
    [2^k - 1] seconds in total, at most [2^(max_retries - 1) - 1], which is 3
    seconds for the default of three attempts. *)
Theorem fetch_homeworks_pauses (max_retries : Z) (env : nat → get_outcome) :
  ((max_retries <= 0)%Z →
     fetch_homeworks max_retries env =
       (Raise (AutheduAPIError (MsgExhausted max_retries None) None), []))
  ∧ ((0 < max_retries)%Z →
     ∃ k, (k < Z.to_nat max_retries)%nat
       ∧ (fetch_homeworks max_retries env).2 = retry_trace k
       ∧ total_pause (fetch_homeworks max_retries env).2 = (2 ^ Z.of_nat k - 1)%Z
       ∧ (total_pause (fetch_homeworks max_retries env).2
            <= 2 ^ (max_retries - 1) - 1)%Z)
  ∧ (total_pause (fetch_homeworks default_max_retries env).2 <= 3)%Z.
Proof.
  assert (Hpos : ∀ M, (0 < M)%Z →
     ∃ k, (k < Z.to_nat M)%nat
       ∧ (fetch_homeworks M env).2 = retry_trace k
       ∧ total_pause (fetch_homeworks M env).2 = (2 ^ Z.of_nat k - 1)%Z
       ∧ (total_pause (fetch_homeworks M env).2 <= 2 ^ (M - 1) - 1)%Z).
  { intros M HM. unfold fetch_homeworks.
    destruct (Z.to_nat M) as [|n] eqn:HN; [lia|].
    destruct (fetch_loop_shape n 0 M env None) as (k & Hk & Htr); [lia|].
    exists k. split; [lia|]. split; [exact Htr|].
    assert (Hsum : total_pause (fetch_loop (seq 0 (S n)) M env None).2
                   = (2 ^ Z.of_nat k - 1)%Z).
    { rewrite Htr. unfold total_pause, sleeps. rewrite omap_app.
      fold (sleeps (failed_attempts 0 k)). rewrite sleeps_failed_attempts.
      simpl. rewrite app_nil_r, total_pause_failed. simpl. lia. }
    split; [exact Hsum|]. rewrite Hsum.
    assert (2 ^ Z.of_nat k <= 2 ^ (M - 1))%Z; [|lia].
    apply Z.pow_le_mono_r; lia. }
  split; [|split].
  - intros HM. unfold fetch_homeworks.
    by replace (Z.to_nat max_retries) with 0%nat by lia.
  - apply Hpos.
  - destruct (Hpos default_max_retries) as (k & _ & _ & _ & H); [done|].
    exact H.
Qed.

(* ===================================================================== *)
(** ** Properties of the homework handlers *)
(* ===================================================================== *)

Lemma filter_date_forall d items :
  Forall (λ i, homework_date i = d)
    (List.filter (λ item, date_eqb (homework_date item) d) items).
Proof.
  apply Forall_forall. intros i Hi.
  apply list_elem_of_In, filter_In in Hi as [_ Hi]. by apply date_eqb_eq.
Qed.

(** The requests of [fetch_homeworks] with the default of three attempts:
    at least one, at most three. *)
Lemma fetch_homeworks_default_requests env :
  (1 <= requests (fetch_homeworks default_max_retries env).2 <= 3)%nat.
Proof.
  unfold fetch_homeworks.
  change (Z.to_nat default_max_retries) with 3%nat.
  destruct (fetch_loop_shape 2 0 default_max_retries env None) as (k & Hk & Htr);
    [done|].
  rewrite Htr, requests_app, requests_failed_attempts.
  change (requests [EvGet]) with 1%nat. lia.
Qed.

(** [send_homework] with a client: the steps are those of [fetch_homeworks],
    and its result decides the answer. *)
Lemma send_homework_client env d is_range :
  let o := send_homework (Some env) d is_range in
  let r := fetch_homeworks default_max_retries env in
  steps o = r.2
  ∧ (∀ items, r.1 = Ok items →
       answers o = [AnswerHomework
                      (if negb is_range
                       then List.filter (λ item, date_eqb (homework_date item) d) items
                       else items) d is_range]
       ∧ raised o = None)
  ∧ (∀ m c, r.1 = Raise (AutheduAPIError m c) →
       answers o = [AnswerError m] ∧ raised o = None)
  ∧ (∀ e, r.1 = Raise e → (∀ m c, e ≠ AutheduAPIError m c) →
       answers o = [] ∧ raised o = Some e).
Proof.
  unfold send_homework.
  destruct (fetch_homeworks default_max_retries env) as [res tr].
  cbn [fst snd].
  destruct res as [items|e]; [|destruct e as [m c| | |]];
    cbn [answers steps raised]; (split; [reflexivity|]);
    (split; [|split]); try (intros; discriminate).
  - by intros its [= <-].
  - by intros m' c' [= <- <-].
  - intros e He Hno. injection He as <-. by destruct (Hno m c).
  - intros e He _. by injection He as <-.
  - intros e He _. by injection He as <-.
  - intros e He _. by injection He as <-.
Qed.

(** X16.  The gate and the answer of [hw_today].  For a sender who is not
    authorized (an event without sender counts as user [0]) the handler
    sends the denial and makes no request.  For an authorized sender it
    sends the loading notice first.  Without a client it then answers that
    there is none and requests nothing.  With a client it calls
    [fetch_homeworks] with the default of three attempts: the steps are
    those of that call, with one to three requests.  When the call returns
    items, the answer is the homework of today alone: the returned items
    whose date is today, in their order.  When the call raises an
    [AutheduAPIError], the answer is the text of that error and nothing
    leaves the handler.  Any other exception leaves the handler after the
    loading notice. *)
Theorem hw_today_outcome (from_user : option Z) (today : date)
    (client : option (nat → get_outcome)) (s : Storage) :
  let uid := match from_user with Some u => u | None => 0%Z end in
  (is_authorized uid s = false →
     hw_today from_user today client s
       = (Some DenialAlert, {| answers := []; steps := []; raised := None |}))
  ∧ (is_authorized uid s = true →
     (client = None →
        hw_today from_user today client s
          = (None, {| answers := [AnswerLoading; AnswerNoClient];
                      steps := []; raised := None |}))
     ∧ (∀ env, client = Some env →
        ∃ o, hw_today from_user today client s = (None, o)
          ∧ steps o = (fetch_homeworks default_max_retries env).2
          ∧ (1 <= requests (steps o) <= 3)%nat
          ∧ (∀ items, (fetch_homeworks default_max_retries env).1 = Ok items →
               answers o =
                 [AnswerLoading;
                  AnswerHomework
                    (List.filter (λ item, date_eqb (homework_date item) today) items)
                    today false]
               ∧ raised o = None)
          ∧ (∀ m c, (fetch_homeworks default_max_retries env).1
                      = Raise (AutheduAPIError m c) →
               answers o = [AnswerLoading; AnswerError m] ∧ raised o = None)
          ∧ (∀ e, (fetch_homeworks default_max_retries env).1 = Raise e →
               (∀ m c, e ≠ AutheduAPIError m c) →
               answers o = [AnswerLoading] ∧ raised o = Some e))).
Proof.
  intros uid. subst uid. unfold hw_today, check_access. split; intros ->.
  { done. }
  cbn [negb]. split.
  - by intros ->.
  - intros env ->. eexists. split; [reflexivity|]. cbn [answers steps raised].
    destruct (send_homework_client env today false) as (Hsteps & Hok & Herr & Hexn).
    split; [exact Hsteps|]. split.
    { rewrite Hsteps. apply fetch_homeworks_default_requests. }
    split; [|split].
    + intros items Hr. destruct (Hok items Hr) as [-> ->]. done.
    + intros m c Hr. destruct (Herr m c Hr) as [-> ->]. done.
    + intros e Hr He. destruct (Hexn e Hr He) as [-> ->]. done.
Qed.

Lemma hw_today_outcome_witness :
  hw_today (Some 1%Z) {| year := 2025; month := 12; day := 15 |}
    (Some (timeout_then 401 None)) one_key_store
  = (None, {| answers := [AnswerLoading; AnswerError MsgTokenExpired];
              steps := [EvGet; EvSleep 1; EvGet];
              raised := None |}).
Proof.
  destruct (hw_today_outcome (Some 1%Z) {| year := 2025; month := 12; day := 15 |}
              (Some (timeout_then 401 None)) one_key_store) as [_ H].
  destruct (H eq_refl) as [_ Henv].
  destruct (Henv (timeout_then 401 None) eq_refl) as (o & Hrun & Hsteps & _ & _ & Herr & _).
  destruct (Herr MsgTokenExpired (Some 401%Z) eq_refl) as [Hans Hraised].
  rewrite Hrun. destruct o as [ans st rs]. cbn [answers steps raised] in *.
  by rewrite Hans, Hsteps, Hraised.
Defined.

(* ===================================================================== *)
(** ** Properties of the configuration *)
(* ===================================================================== *)

Import Config.

Lemma digit_value_char d : (d < 10)%N → digit_value (pretty_N_char d) = Some d.
Proof.
  intros Hd.
  assert (H : (d = 0 ∨ d = 1 ∨ d = 2 ∨ d = 3 ∨ d = 4 ∨ d = 5 ∨ d = 6 ∨ d = 7
               ∨ d = 8 ∨ d = 9)%N) by lia.
  repeat (destruct H as [->|H]; [reflexivity|]). by subst.
Qed.

(** Reading back the digits [pretty_N_go] writes. *)
Lemma digits_value_pretty_go x :
  ∃ p, ∀ acc s, digits_value acc (pretty_N_go x s) = digits_value (acc * p + x) s.
Proof.
  induction (N.lt_wf_0 x) as [x _ IH].
  assert (x = 0 ∨ 0 < x)%N as [->|Hx] by lia.
  - exists 1%N. intros acc s. rewrite pretty_N_go_0. f_equal. lia.
  - destruct (IH (x `div` 10)%N) as [p Hp]; [by apply N.div_lt|].
    exists (10 * p)%N. intros acc s.
    rewrite pretty_N_go_step, Hp by done. cbn [digits_value].
    rewrite digit_value_char by (apply N.mod_lt; lia). f_equal.
    pose proof (N.div_mod x 10). lia.
Qed.

Lemma digit_text_pretty_go x s :
  digit_text s = true → digit_text (pretty_N_go x s) = true.
Proof.
  revert s. induction (N.lt_wf_0 x) as [x _ IH]; intros s Hs.
  assert (x = 0 ∨ 0 < x)%N as [->|Hx] by lia.
  - by rewrite pretty_N_go_0.
  - rewrite pretty_N_go_step by done. apply IH; [by apply N.div_lt|].
    unfold digit_text. cbn [list_ascii_of_string forallb].
    unfold digit_char at 1. rewrite digit_value_char by (apply N.mod_lt; lia).
    exact Hs.
Qed.

(** [str(n)] of a number that is not negative: decimal digits, at least
    one, that spell the number. *)
Lemma str_digits (n : N) :
  digits_value 0 (str (Z.of_N n)) = Some n
  ∧ digit_text (str (Z.of_N n)) = true
  ∧ str (Z.of_N n) ≠ "".
Proof.
  assert (Hstr : str (Z.of_N n) = pretty n) by by destruct n.
  rewrite Hstr. unfold pretty, pretty_N.
  destruct (decide (n = 0%N)) as [->|Hn]; [done|].
  destruct (digits_value_pretty_go n) as [p Hp].
  assert (Hv : digits_value 0 (pretty_N_go n "") = Some n).
  { rewrite Hp. simpl. f_equal; lia. }
  split; [exact Hv|]. split; [by apply digit_text_pretty_go|].
  intros Hempty. rewrite Hempty in Hv. simpl in Hv. congruence.
Qed.

Lemma digit_char_plain c :
  digit_char c = true →
  plain (nat_of_ascii c) = true ∧ (nat_of_ascii c <? 128)%nat = true
  ∧ Ascii.eqb c "," = false.
Proof.
  destruct c as [[] [] [] [] [] [] [] []]; vm_compute; intros; try done; congruence.
Qed.

Lemma digit_text_facts s :
  digit_text s = true →
  forallb plain (bytes_of s) = true ∧ is_ascii_text s = true
  ∧ forallb (λ c, negb (Ascii.eqb c ",")) (list_ascii_of_string s) = true.
Proof.
  unfold digit_text, bytes_of, is_ascii_text.
  induction (list_ascii_of_string s) as [|c l IH]; [done|]. simpl.
  intros [(Hp & Ha & Hc)%digit_char_plain (IH1 & IH2 & IH3)%IH]%andb_true_iff.
  by rewrite Hp, Ha, Hc, IH1, IH2, IH3.
Qed.

Lemma split_comma_plain p :
  forallb (λ c, negb (Ascii.eqb c ",")) (list_ascii_of_string p) = true →
  split_comma p = [p]
  ∧ ∀ rest, split_comma (p ++ "," ++ rest) = p :: split_comma rest.
Proof.
  induction p as [|c p IH]; [done|]. cbn [list_ascii_of_string forallb].
  intros [Hc [IH1 IH2]%IH]%andb_true_iff. apply negb_true_iff in Hc.
  split.
  - cbn [split_comma]. by rewrite Hc, IH1.
  - intros rest. change (String c p ++ "," ++ rest) with (String c (p ++ "," ++ rest)).
    cbn [split_comma]. by rewrite Hc, IH2.
Qed.

Lemma is_ascii_text_app a b :
  is_ascii_text (a ++ b) = is_ascii_text a && is_ascii_text b.
Proof.
  unfold is_ascii_text. induction a as [|c a IH]; [done|].
  change (String c a ++ b) with (String c (a ++ b)).
  cbn [list_ascii_of_string forallb]. by rewrite IH, andb_assoc.
Qed.

Lemma join_comma_cons p q ps :
  join_comma (p :: q :: ps) = p ++ "," ++ join_comma (q :: ps).
Proof. reflexivity. Qed.

Lemma split_join parts :
  parts ≠ [] →
  Forall (λ p, digit_text p = true) parts →
  split_comma (join_comma parts) = parts
  ∧ is_ascii_text (join_comma parts) = true.
Proof.
  intros Hne Hall. induction Hall as [|p ps Hp Hps IH]; [done|].
  apply digit_text_facts in Hp as (_ & Ha & Hc).
  destruct (split_comma_plain p Hc) as [H1 H2].
  destruct ps as [|q ps]; [by split|].
  destruct IH as [IH1 IH2]; [done|].
  rewrite join_comma_cons, H2, IH1, !is_ascii_text_app, Ha, IH2. done.
Qed.

Lemma fold_ids_nonneg (parts : list string) (acc : gset Z) :
  (∀ z, z ∈ acc → (0 <= z)%Z) →
  ∀ z, z ∈ foldl (λ (ids : gset Z) part,
                    let part := strip part in
                    if isdigit part then {[ int part ]} ∪ ids else ids) acc parts →
       (0 <= z)%Z.
Proof.
  revert acc. induction parts as [|p parts IH]; intros acc Hacc; [done|].
  cbn [foldl]. apply IH. cbn zeta. destruct (isdigit (strip p)); [|done].
  intros z [->%elem_of_singleton|Hz]%elem_of_union; [|by apply Hacc].
  unfold int. destruct (digits_value 0 (strip p)); lia.
Qed.

Lemma fold_ids_digits (ns : list N) (acc : gset Z) :
  foldl (λ (ids : gset Z) part,
           let part := strip part in
           if isdigit part then {[ int part ]} ∪ ids else ids)
        acc (map (λ n, str (Z.of_N n)) ns)
  = list_to_set (map Z.of_N ns) ∪ acc.
Proof.
  revert acc. induction ns as [|n ns IH]; intros acc; cbn [map foldl].
  { simpl. by rewrite (left_id_L ∅ (∪)). }
  destruct (str_digits n) as (Hv & Ht & Hne). cbn zeta.
  rewrite (strip_plain (str (Z.of_N n))) by by apply digit_text_facts.
  unfold isdigit, int. rewrite Hv.
  destruct (String.eqb_spec (str (Z.of_N n)) ""); [done|]. cbn [negb andb].
  rewrite IH. simpl.
  by rewrite (assoc_L (∪)), (comm_L (∪) (list_to_set _)).
Qed.

(** X17.  [parse_user_ids] reads back a list of user ids written with
    commas: for every list of numbers that are not negative, whose decimal
    texts joined by [","] make a text of at most 4300 characters, that text
    parses to exactly the set of these numbers (the empty text to the empty
    set).  And every ASCII text of at most 4300 characters parses to a set
    that holds no negative number. *)
Theorem parse_user_ids_round_trip (ns : list N) :
  (String.length (join_comma (map (λ n, str (Z.of_N n)) ns)) <= 4300)%nat →
  parse_user_ids (join_comma (map (λ n, str (Z.of_N n)) ns))
    = Some (list_to_set (map Z.of_N ns))
  ∧ ∀ value, is_ascii_text value = true → (String.length value <= 4300)%nat →
      ∃ ids, parse_user_ids value = Some ids ∧ ∀ z, z ∈ ids → (0 <= z)%Z.
Proof.
  intros Hlen. apply Nat.leb_le in Hlen. split.
  - destruct ns as [|n ns]; [by vm_compute|].
    destruct (split_join (map (λ n, str (Z.of_N n)) (n :: ns))) as [Hs Ha]; [done| |].
    { apply Forall_forall. intros p Hp.
      apply list_elem_of_In, in_map_iff in Hp as (m & <- & _).
      apply str_digits. }
    unfold parse_user_ids. rewrite Ha, Hlen, Hs, fold_ids_digits.
    f_equal. apply (right_id_L ∅ (∪)).
  - intros value Hascii Hshort. apply Nat.leb_le in Hshort.
    unfold parse_user_ids. rewrite Hascii, Hshort. cbn [andb].
    eexists. split; [reflexivity|]. intros z.
    apply fold_ids_nonneg. intros z0 Hz0. by apply not_elem_of_empty in Hz0.
Qed.

Lemma parse_user_ids_round_trip_witness :
  join_comma (map (λ n, str (Z.of_N n)) [1034877346; 42; 42; 0]%N)
    = "1034877346,42,42,0"
  ∧ parse_user_ids (join_comma (map (λ n, str (Z.of_N n)) [1034877346; 42; 42; 0]%N))
    = Some (list_to_set [1034877346; 42; 42; 0]%Z)
  ∧ ∃ ids, parse_user_ids " 7, -5 ,x,, 12 " = Some ids ∧ ∀ z, z ∈ ids → (0 <= z)%Z.
Proof.
  split; [by vm_compute|].
  assert (Hlen : (String.length (join_comma (map (λ n, str (Z.of_N n))
                    [1034877346; 42; 42; 0]%N)) <= 4300)%nat)
    by (vm_compute; lia).
  destruct (parse_user_ids_round_trip [1034877346; 42; 42; 0]%N Hlen) as [H1 H2].
  split; [exact H1|].
  apply (H2 " 7, -5 ,x,, 12 "); [reflexivity|vm_compute; lia].
Defined.

(* ===================================================================== *)
(** ** Revocation, and bodies that are not JSON *)
(* ===================================================================== *)

(** X18.  Deleting a key revokes its user and nobody else.  For a stored key
    that is unused, [delete_key] leaves the user records as they are.  For a
    key activated by a user id other than [0], it removes the record of that
    user, so that [is_authorized] is false for the user afterwards (unless
    the user is the admin), and [is_authorized] keeps its value for every
    other user id. *)
Theorem delete_key_revokes_one (s : Storage) (tok : string) (kd : KeyData) :
  keys s !! tok = Some kd →
  (activated_by kd = None → users (delete_key tok s).2 = users s)
  ∧ ∀ u, activated_by kd = Some u → u ≠ 0%Z →
      (u ≠ admin_id s → is_authorized u (delete_key tok s).2 = false)
      ∧ get_user_count (delete_key tok s).2
          = (get_user_count s
             - match users s !! str u with Some _ => 1 | None => 0 end)%nat
      ∧ ∀ u', u' ≠ u →
          is_authorized u' (delete_key tok s).2 = is_authorized u' s.
Proof.
  intros Hk. split.
  - intros Ha. unfold delete_key, activated_by_truthy. by rewrite Hk, Ha.
  - intros u Ha Hu.
    destruct (delete_key_removes_user s tok kd u Hk Ha Hu) as [Husers Hauth].
    split; [exact Hauth|]. split.
    + unfold get_user_count. rewrite Husers, map_size_delete.
      destruct (users s !! str u); simpl; lia.
    + intros u' Hne. unfold is_authorized.
      rewrite (proj2 (proj2 (delete_key_known s tok kd Hk))), Husers.
      destruct (u' =? admin_id s)%Z; [done|].
      rewrite lookup_delete_ne; [done|]. intros Heq. by apply str_inj in Heq.
Qed.

Lemma delete_key_revokes_one_witness :
  is_authorized 7 two_key_store = true
  ∧ is_authorized 7 (delete_key "BBBB-BBBB-BBBB" two_key_store).2 = false
  ∧ get_user_count (delete_key "BBBB-BBBB-BBBB" two_key_store).2 = 0%nat.
Proof.
  split; [by vm_compute|].
  destruct (delete_key_revokes_one two_key_store "BBBB-BBBB-BBBB"
              {| created_at := "2025-12-01T10:00:00";
                 activated_by := Some 7%Z;
                 activated_by_username := Some "@seven";
                 activated_at := Some "2025-12-03T10:00:00" |} eq_refl) as [_ H].
  destruct (H 7%Z eq_refl) as (Hauth & Hcount & _); [lia|].
  split; [apply Hauth; simpl; lia|]. rewrite Hcount. by vm_compute.
Defined.

(** X19.  A body that is not JSON is not retried.  When the first response
    of a call has a status below 400 and a body that [response.json()]
    cannot read, [fetch_homeworks] raises the decoding error at that attempt:
    no pause and no request follow, whatever is left of [max_retries]. *)
Theorem fetch_homeworks_bad_body (max_retries : Z) (env : nat → get_outcome)
    (k : nat) (st : Z) :
  (k < Z.to_nat max_retries)%nat →
  (∀ j, (j < k)%nat → is_Some (net_error_of (env j))) →
  env k = GetResponse st None →
  (st < 400)%Z →
  fetch_homeworks max_retries env = (Raise JSONDecodeError, retry_trace k)
  ∧ requests (retry_trace k) = S k
  ∧ last (retry_trace k) = Some EvGet.
Proof.
  intros Hk Herr Hresp Hst. split; [|split].
  - unfold fetch_homeworks, retry_trace.
    rewrite (fetch_loop_response _ 0 k max_retries env None st None);
      [|exact Hk|lia|exact Herr|exact Hresp].
    f_equal. unfold handle_response.
    destruct (Z.eqb_spec st 401); [lia|]. destruct (Z.eqb_spec st 403); [lia|].
    destruct (Z.geb_spec st 400); [lia|done].
  - unfold retry_trace.
    rewrite requests_app, requests_failed_attempts. unfold requests. simpl. lia.
  - unfold retry_trace. apply last_snoc.
Qed.

Lemma fetch_homeworks_bad_body_witness :
  fetch_homeworks 3 (timeout_then 200 None)
    = (Raise JSONDecodeError, [EvGet; EvSleep 1; EvGet]).
Proof.
  destruct (fetch_homeworks_bad_body 3 (timeout_then 200 None) 1 200) as [H _];
    [simpl; lia| |reflexivity|lia|exact H].
  intros j Hj. replace j with 0%nat by lia. simpl. eauto.
Defined.
